(** * Scoring and classification engine of the NBA scouting dashboard

    A shallow embedding of [app.py]: the batch scorer [calculate_metrics],
    the tier classifier [classify_players], the incremental evaluator
    [calculate_single_player_metrics] and the two places of [main] that
    call the incremental evaluator.

    Numbers.  The columns are float64.  A float64 is modelled as an exact
    real number or one of the IEEE special values (the two infinities and
    NaN); rounding and the sign of zero are not modelled.  [np.log] is the
    natural logarithm, with numpy's results at zero and below. *)

From Stdlib Require Import String Ascii.
From Stdlib Require Import Reals Lra Lia ZArith List Bool Arith.
From Stdlib Require Import Permutation Sorted.
Import ListNotations.

Open Scope R_scope.

(* ================================================================== *)
(** ** float64 values and their arithmetic *)

Inductive float : Type :=
| Fin (r : R)
| PInf
| NInf
| NaN.

Definition is_finite (x : float) : Prop :=
  match x with Fin _ => True | _ => False end.

Definition isna (x : float) : bool :=
  match x with NaN => true | _ => false end.

Definition fneg (x : float) : float :=
  match x with
  | Fin r => Fin (- r)
  | PInf => NInf
  | NInf => PInf
  | NaN => NaN
  end.

Definition fadd (x y : float) : float :=
  match x, y with
  | NaN, _ | _, NaN => NaN
  | Fin a, Fin b => Fin (a + b)
  | PInf, NInf | NInf, PInf => NaN
  | PInf, _ | _, PInf => PInf
  | NInf, _ | _, NInf => NInf
  end.

Definition fsub (x y : float) : float := fadd x (fneg y).

(** An infinity scaled by a finite factor: the sign follows the factor,
    and a zero factor gives NaN. *)
Definition scale_inf (positive : bool) (r : R) : float :=
  if Rlt_dec 0 r then (if positive then PInf else NInf)
  else if Rlt_dec r 0 then (if positive then NInf else PInf)
  else NaN.

Definition fmul (x y : float) : float :=
  match x, y with
  | NaN, _ | _, NaN => NaN
  | Fin a, Fin b => Fin (a * b)
  | Fin a, PInf | PInf, Fin a => scale_inf true a
  | Fin a, NInf | NInf, Fin a => scale_inf false a
  | PInf, PInf | NInf, NInf => PInf
  | PInf, NInf | NInf, PInf => NInf
  end.

Definition fdiv (x y : float) : float :=
  match x, y with
  | NaN, _ | _, NaN => NaN
  | Fin a, Fin b =>
      if Req_dec_T b 0 then scale_inf true a else Fin (a / b)
  | Fin _, PInf | Fin _, NInf => Fin 0
  | PInf, Fin b => if Rlt_dec b 0 then NInf else PInf
  | NInf, Fin b => if Rlt_dec b 0 then PInf else NInf
  | _, _ => NaN
  end.

(** [x < y]; every comparison with NaN is false. *)
Definition fltb (x y : float) : bool :=
  match x, y with
  | NaN, _ | _, NaN => false
  | Fin a, Fin b => if Rlt_dec a b then true else false
  | NInf, NInf | PInf, PInf => false
  | NInf, _ | _, PInf => true
  | _, _ => false
  end.

Definition fgtb (x y : float) : bool := fltb y x.

(** [x == y] of floats: NaN differs from everything, itself included. *)
Definition feqb (x y : float) : bool :=
  match x, y with
  | Fin a, Fin b => if Req_dec_T a b then true else false
  | PInf, PInf | NInf, NInf => true
  | _, _ => false
  end.

(** [np.log]: the natural logarithm; [-inf] at zero, NaN below zero. *)
Definition np_log (x : float) : float :=
  match x with
  | Fin r =>
      if Rlt_dec 0 r then Fin (ln r)
      else if Req_dec_T r 0 then NInf else NaN
  | PInf => PInf
  | NInf | NaN => NaN
  end.

Declare Scope float_scope.
Delimit Scope float_scope with fl.
Infix "+" := fadd : float_scope.
Infix "-" := fsub : float_scope.
Infix "*" := fmul : float_scope.
Infix "/" := fdiv : float_scope.

(** Decimal literals of the source. *)
Definition lit (r : R) : float := Fin r.

(* ================================================================== *)
(** ** The data model: rows of the dataset and columns of a frame *)

(** One row of [AllStar_Dataset.csv]. *)
Record PlayerRecord : Type := {
  player_name : string;
  conference : string;
  games_played : Z;
  mp : R;
  ppg : R;
  rpg : R;
  apg : R;
  spg : R;
  bpg : R;
  turnovers : R;      (* column 'to' *)
  fg_pct : R;         (* column 'fg%' *)
  three_pct : R;      (* column '3p%' *)
  two_pct : R;        (* column '2p%' *)
  ft_pct : R;         (* column 'ft%' *)
  Salary : Z
}.

(** The feature columns that are normalized. *)
Inductive column : Type :=
| c_ppg | c_rpg | c_apg | c_spg | c_bpg | c_to | c_fg | c_ft | c_3p | c_2p.

Definition features_cem : list column :=
  [c_ppg; c_rpg; c_apg; c_spg; c_bpg; c_to; c_fg; c_ft].

Definition features_extra : list column := [c_3p; c_2p].

Definition raw (col : column) (r : PlayerRecord) : R :=
  match col with
  | c_ppg => ppg r
  | c_rpg => rpg r
  | c_apg => apg r
  | c_spg => spg r
  | c_bpg => bpg r
  | c_to => turnovers r
  | c_fg => fg_pct r
  | c_ft => ft_pct r
  | c_3p => three_pct r
  | c_2p => two_pct r
  end.

(** A frame of raw rows, in index order, and a column of floats. *)
Definition DataFrame : Type := list PlayerRecord.
Definition Series : Type := list float.

(** [df[col]] *)
Definition getitem (df : DataFrame) (col : column) : Series :=
  map (fun r => Fin (raw col r)) df.

(** [df['games_played']], an integer column, seen as floats. *)
Definition games_col (df : DataFrame) : Series :=
  map (fun r => Fin (IZR (games_played r))) df.

(** *** Reductions and element-wise operations of pandas *)

(** The smaller of two entries, a NaN entry being skipped. *)
Definition fmin2 (a b : float) : float :=
  if isna a then b else if isna b then a else if fltb b a then b else a.

Definition fmax2 (a b : float) : float :=
  if isna a then b else if isna b then a else if fltb a b then b else a.

(** [s.min()] and [s.max()]: NaN entries are skipped, and the result is
    NaN when nothing is left. *)
Definition series_min (s : Series) : float := fold_right fmin2 NaN s.
Definition series_max (s : Series) : float := fold_right fmax2 NaN s.

(** [s - c], [s / c] and [c * s] for a scalar [c]. *)
Definition sub_scalar (s : Series) (c : float) : Series :=
  map (fun x => fsub x c) s.
Definition div_scalar (s : Series) (c : float) : Series :=
  map (fun x => fdiv x c) s.
Definition scalar_mul (c : float) (s : Series) : Series :=
  map (fun x => fmul c x) s.

(** [s op t] for two columns of one frame: the rows are aligned. *)
Fixpoint map2 (f : float -> float -> float) (s t : Series) : Series :=
  match s, t with
  | x :: s', y :: t' => f x y :: map2 f s' t'
  | _, _ => []
  end.

Definition series_add := map2 fadd.
Definition series_sub := map2 fsub.
Definition series_mul := map2 fmul.

(** [np.log(s)] *)
Definition series_log (s : Series) : Series := map np_log s.

Declare Scope series_scope.
Delimit Scope series_scope with ser.
Infix "+" := series_add : series_scope.
Infix "-" := series_sub : series_scope.
Infix "*" := series_mul : series_scope.
Infix "*:" := scalar_mul (at level 40, left associativity) : series_scope.

(* ================================================================== *)
(** ** The batch scorer: [calculate_metrics] *)

(** The frame [calculate_metrics] returns: the rows of its argument and
    the columns it adds. *)
Record ScoredFrame : Type := {
  rows : DataFrame;
  norm : column -> Series;     (* 'norm_<col>' *)
  CEM : Series;
  Final_CEM : Series;
  PER_like : Series;
  MVPCEM : Series
}.

(** [(df[col] - df[col].min()) / (df[col].max() - df[col].min())] *)
Definition normalize_column (df : DataFrame) (col : column) : Series :=
  div_scalar
    (sub_scalar (getitem df col) (series_min (getitem df col)))
    (fsub (series_max (getitem df col)) (series_min (getitem df col))).

(** The loop over [features_cem] and the two assignments for ['3p%'] and
    ['2p%'] give every one of the ten features its ['norm_<col>'] column
    by the same expression; the sums are written in the order of the
    source. *)
Definition calculate_metrics (df : DataFrame) : ScoredFrame :=
  let norm := normalize_column df in
  let CEM :=
    (lit 0.35 *: norm c_ppg + lit 0.20 *: norm c_rpg + lit 0.20 *: norm c_apg +
     lit 0.05 *: norm c_spg + lit 0.05 *: norm c_bpg - lit 0.10 *: norm c_to +
     lit 0.10 *: norm c_fg + lit 0.05 *: norm c_ft)%ser in
  let Final_CEM := (CEM * series_log (games_col df))%ser in
  let PER_like :=
    (lit 0.35 *: norm c_ppg + lit 0.20 *: norm c_rpg + lit 0.20 *: norm c_apg +
     lit 0.05 *: norm c_spg + lit 0.05 *: norm c_bpg + lit 0.10 *: norm c_fg +
     lit 0.07 *: norm c_3p + lit 0.05 *: norm c_2p + lit 0.05 *: norm c_ft -
     lit 0.10 *: norm c_to)%ser in
  let MVPCEM := (PER_like * series_log (games_col df))%ser in
  {| rows := df; norm := norm; CEM := CEM; Final_CEM := Final_CEM;
     PER_like := PER_like; MVPCEM := MVPCEM |}.

(** *** The composite indices as the specification writes them

    [n] gives the normalized value of each feature of one record. *)
Definition spec_CEM (n : column -> float) : float :=
  (lit 0.35 * n c_ppg + lit 0.20 * n c_rpg + lit 0.20 * n c_apg +
   lit 0.05 * n c_spg + lit 0.05 * n c_bpg - lit 0.10 * n c_to +
   lit 0.10 * n c_fg + lit 0.05 * n c_ft)%fl.

Definition spec_PERLike (n : column -> float) : float :=
  (lit 0.35 * n c_ppg + lit 0.20 * n c_rpg + lit 0.20 * n c_apg +
   lit 0.05 * n c_spg + lit 0.05 * n c_bpg + lit 0.10 * n c_fg +
   lit 0.07 * n c_3p + lit 0.05 * n c_2p + lit 0.05 * n c_ft -
   lit 0.10 * n c_to)%fl.

(** The normalized value of a feature of record [r] with the bounds of
    the population [df]: [(value - min) / (max - min)]. *)
Definition batch_normalize (df : DataFrame) (col : column) (r : PlayerRecord)
    : float :=
  ((Fin (raw col r) - series_min (getitem df col)) /
   (series_max (getitem df col) - series_min (getitem df col)))%fl.

(** A feature is degenerate over a population when its maximum equals
    its minimum there. *)
Definition degenerate (df : DataFrame) (col : column) : Prop :=
  series_max (getitem df col) = series_min (getitem df col).

(** A float that is a real number of the interval [0, 1]. *)
Definition in_unit_interval (v : float) : Prop :=
  exists x, v = Fin x /\ 0 <= x <= 1.

(* ================================================================== *)
(** ** The incremental evaluator: [calculate_single_player_metrics] *)

(** [pd.concat([df, pd.DataFrame([player_data])], ignore_index=True)] *)
Definition pd_concat (df : DataFrame) (player_data : PlayerRecord) : DataFrame :=
  df ++ [player_data].

(** The guarded normalization of the evaluator: the column is divided
    only when [col_max - col_min > 0], and is the constant 0 otherwise. *)
Definition normalize_guarded (df_combined : DataFrame) (col : column) : Series :=
  let col_min := series_min (getitem df_combined col) in
  let col_max := series_max (getitem df_combined col) in
  if fgtb (fsub col_max col_min) (Fin 0)
  then div_scalar (sub_scalar (getitem df_combined col) col_min)
                  (fsub col_max col_min)
  else map (fun _ => Fin 0) df_combined.

(** The normalized value the evaluator gives a record [r] of the
    combined frame. *)
Definition guarded_normalize (df_combined : DataFrame) (col : column)
    (r : PlayerRecord) : float :=
  if fgtb (fsub (series_max (getitem df_combined col))
                (series_min (getitem df_combined col))) (Fin 0)
  then batch_normalize df_combined col r
  else Fin 0.

(** [s.iloc[-1]] of a column; the combined frame is never empty. *)
Definition iloc_last (s : Series) : float := last s NaN.

Definition calculate_single_player_metrics
    (player_data : PlayerRecord) (df : DataFrame) : float * float :=
  let df_combined := pd_concat df player_data in
  let new_player := fun col => iloc_last (normalize_guarded df_combined col) in
  let new_player_games := iloc_last (games_col df_combined) in
  let cem :=
    (lit 0.35 * new_player c_ppg + lit 0.20 * new_player c_rpg +
     lit 0.20 * new_player c_apg + lit 0.05 * new_player c_spg +
     lit 0.05 * new_player c_bpg - lit 0.10 * new_player c_to +
     lit 0.10 * new_player c_fg + lit 0.05 * new_player c_ft)%fl in
  let final_cem := (cem * np_log new_player_games)%fl in
  let per_like :=
    (lit 0.35 * new_player c_ppg + lit 0.20 * new_player c_rpg +
     lit 0.20 * new_player c_apg + lit 0.05 * new_player c_spg +
     lit 0.05 * new_player c_bpg + lit 0.10 * new_player c_fg +
     lit 0.07 * new_player c_3p + lit 0.05 * new_player c_2p +
     lit 0.05 * new_player c_ft - lit 0.10 * new_player c_to)%fl in
  let mvpcem := (per_like * np_log new_player_games)%fl in
  (final_cem, mvpcem).

(* ================================================================== *)
(** ** The classifier: [classify_players] *)

(** What a call does: it returns a value or raises. *)
Inductive exn : Type :=
| ValueError (msg : string).

Inductive outcome (A : Type) : Type :=
| Returns (a : A)
| Raises (e : exn).

Arguments Returns {A} a.
Arguments Raises {A} e.

Inductive Category : Type :=
| MVP_Caliber
| All_NBA_Caliber
| All_Star_Caliber.

Definition categories : list Category :=
  [MVP_Caliber; All_NBA_Caliber; All_Star_Caliber].

(** [x <= y] on floats, as the negation of [y < x]. *)
Definition float_le (x y : float) : Prop := fltb y x = false.

(** *** [np.percentile] with linear interpolation *)

(** Ascending sort of the values, as numpy sorts them. *)
Fixpoint insert_asc (x : float) (l : list float) : list float :=
  match l with
  | [] => [x]
  | y :: t => if fltb y x then y :: insert_asc x t else x :: y :: t
  end.

Definition sort_asc (l : list float) : list float :=
  fold_right insert_asc [] l.

Definition dropna (x : Series) : Series :=
  filter (fun v => negb (isna v)) x.

(** numpy's [_lerp]: [a + (b - a) * t], computed from [b] when
    [t >= 0.5].  The weight is [num / den]. *)
Definition lerp (a b : float) (num den : nat) : float :=
  let t := IZR (Z.of_nat num) / IZR (Z.of_nat den) in
  if (den <=? 2 * num)%nat
  then (b - (b - a) * Fin (1 - t))%fl
  else (a + (b - a) * Fin t)%fl.

(** The quantile of level [k / q] of the sorted values [arr]: the
    virtual index is [(n - 1) * k / q], its integer part selects the two
    neighbours and its fractional part is the weight.  The level and the
    index are exact here; numpy computes them in float64, where a level
    such as 1/3 is rounded, so that a quantile which is a value of [arr]
    here may be one unit in the last place off that value there. *)
Definition quantile (arr : list float) (k q : nat) : float :=
  match arr with
  | [] => NaN
  | _ :: _ =>
      let n := length arr in
      let previous := ((n - 1) * k / q)%nat in
      let next := Nat.min (previous + 1) (n - 1) in
      lerp (nth previous arr NaN) (nth next arr NaN)
           (((n - 1) * k) mod q)%nat q
  end.

(** [x.dropna().quantile(np.linspace(0, 1, q + 1))] *)
Definition quantile_edges (x : Series) (q : nat) : list float :=
  let arr := sort_asc (dropna x) in
  map (fun k => quantile arr k q) (seq 0 (q + 1)).

(** *** [pd.qcut] *)

(** Two bin edges that [unique] merges: equal floats, or two NaN. *)
Definition same_edge (x y : float) : bool :=
  feqb x y || (isna x && isna y).

Fixpoint has_duplicates (bins : list float) : bool :=
  match bins with
  | [] => false
  | b :: t => existsb (same_edge b) t || has_duplicates t
  end.

(** numpy orders NaN after every other float. *)
Definition np_less (a b : float) : bool :=
  fltb a b || (isna b && negb (isna a)).

(** [searchsorted(side='left')]: binary search of the first index whose
    edge is not less than the key. *)
Fixpoint bsearch_left (fuel : nat) (arr : list float) (key : float)
    (min_idx max_idx : nat) : nat :=
  match fuel with
  | O => min_idx
  | S fuel' =>
      if (min_idx <? max_idx)%nat then
        let mid := (min_idx + (max_idx - min_idx) / 2)%nat in
        if np_less (nth mid arr NaN) key
        then bsearch_left fuel' arr key (mid + 1)%nat max_idx
        else bsearch_left fuel' arr key min_idx mid
      else min_idx
  end.

Definition searchsorted_left (arr : list float) (key : float) : nat :=
  bsearch_left (S (length arr)) arr key 0 (length arr).

(** The bin number of a value; [include_lowest] puts the lowest edge
    itself in the first bin. *)
Definition bin_id (bins : list float) (v : float) : nat :=
  if feqb v (hd NaN bins) then 1%nat else searchsorted_left bins v.

(** The label of a value: none (NaN) for a NaN value or a bin number
    outside [1 .. len(bins) - 1]. *)
Definition label_of (labels : list Category) (bins : list float) (v : float)
    : option Category :=
  let id := bin_id bins v in
  if isna v || (id =? length bins)%nat || (id =? 0)%nat
  then None
  else nth_error labels (id - 1).

Definition qcut (x : Series) (q : nat) (labels : list Category)
    : outcome (list (option Category)) :=
  let bins := quantile_edges x q in
  if has_duplicates bins && negb (length bins =? 2)%nat
  then Raises (ValueError "Bin edges must be unique"%string)
  else if negb (length labels =? length bins - 1)%nat
  then Raises (ValueError
         "Bin labels must be one fewer than the number of bin edges"%string)
  else Returns (map (label_of labels bins) x).

(** The tier of a real value by a lower and an upper cut point: above
    the upper cut, above the lower cut, or not above the lower cut. *)
Definition tier_by_cuts (lower upper v : R) : Category :=
  if Rlt_dec upper v then MVP_Caliber
  else if Rlt_dec lower v then All_NBA_Caliber
  else All_Star_Caliber.

Definition tier_of_float (lower upper : R) (x : float) : option Category :=
  match x with
  | Fin v => Some (tier_by_cuts lower upper v)
  | _ => None
  end.

(** *** [classify_players]

    The rows of the scored frame have some type [A]; [metric] reads the
    column chosen by the [metric] argument.  The result is the sorted
    frame with its new ['Category'] column. *)
Section Classifier.

Context {A : Type}.
Variable metric : A -> float.

(** [a] goes before [b] in descending order; rows whose metric is NaN
    go last. *)
Definition goes_before (a b : A) : bool :=
  if isna (metric b) then true
  else if isna (metric a) then false
  else negb (fltb (metric a) (metric b)).

Fixpoint insert_desc (a : A) (l : list A) : list A :=
  match l with
  | [] => [a]
  | b :: t => if goes_before a b then a :: b :: t else b :: insert_desc a t
  end.

(** [a] is not below [b] in the metric. *)
Definition descending (a b : A) : Prop := float_le (metric b) (metric a).

(** The metric of every row is a real number. *)
Definition finite_metric (df : list A) : Prop :=
  Forall (fun a => is_finite (metric a)) df.

(** [df.sort_values(by=metric, ascending=False)]; rows of equal metric
    keep their order here, which pandas leaves open. *)
Definition sort_values (df : list A) : list A :=
  fold_right insert_desc [] df.

Definition classify_players (df : list A)
    : outcome (list (A * option Category)) :=
  let df_sorted := sort_values df in
  match qcut (map metric df_sorted) 3 (rev categories) with
  | Returns cats => Returns (combine df_sorted cats)
  | Raises e => Raises e
  end.

(** The cut points as the specification words them: the percentile
    [percent] of the metric, by linear interpolation. *)
Definition spec_cut (df : list A) (percent : nat) : float :=
  quantile (sort_asc (dropna (map metric df))) percent 100.

End Classifier.

(* ================================================================== *)
(** ** The two calls of the evaluator in [main] *)

(** [str.strip()] on the characters that Python counts as white space. *)
Definition is_space (c : ascii) : bool :=
  let n := nat_of_ascii c in
  ((9 <=? n) && (n <=? 13) || (28 <=? n) && (n <=? 32))%nat.

Fixpoint lstrip (s : string) : string :=
  match s with
  | EmptyString => EmptyString
  | String c t => if is_space c then lstrip t else s
  end.

Fixpoint rev_string (s : string) : string :=
  match s with
  | EmptyString => EmptyString
  | String c t => (rev_string t ++ String c EmptyString)%string
  end.

Definition strip (s : string) : string :=
  rev_string (lstrip (rev_string (lstrip s))).

(** The dictionary built from the form: the widget values with the
    stripped name. *)
Definition with_name (name : string) (form : PlayerRecord) : PlayerRecord :=
  {| player_name := name; conference := conference form;
     games_played := games_played form; mp := mp form;
     ppg := ppg form; rpg := rpg form; apg := apg form; spg := spg form;
     bpg := bpg form; turnovers := turnovers form; fg_pct := fg_pct form;
     three_pct := three_pct form; two_pct := two_pct form;
     ft_pct := ft_pct form; Salary := Salary form |}.

(** [name in df['player_name'].values] *)
Definition name_in (name : string) (df : DataFrame) : bool :=
  existsb (fun r => String.eqb (player_name r) name) df.

(** [df[df['player_name'] != edit_player]] *)
Definition without_player (df : DataFrame) (edit_player : string) : DataFrame :=
  filter (fun r => negb (String.eqb (player_name r) edit_player)) df.

(** What a submitted form leads to: an error message, or the scores of
    the record that was evaluated. *)
Inductive submission : Type :=
| Rejected (message : string)
| Evaluated (player_data : PlayerRecord) (scores : float * float).

(** [f"A player named '{name}' already exists in the dataset."] *)
Definition already_exists (name : string) : string :=
  ("A player named '" ++ name ++ "' already exists in the dataset.")%string.

(** The form of the tab 'Add New Player'; [form] holds the widget
    values. *)
Definition add_player_submitted (df : DataFrame) (form : PlayerRecord)
    : submission :=
  let name := strip (player_name form) in
  if String.eqb name EmptyString then Rejected "Please enter a player name."
  else if name_in name df then Rejected (already_exists name)
  else
    let player_data := with_name name form in
    Evaluated player_data (calculate_single_player_metrics player_data df).

(** The form of the tab 'Edit Player' for the selected [edit_player]. *)
Definition edit_player_submitted (df : DataFrame) (edit_player : string)
    (form : PlayerRecord) : submission :=
  let name := strip (player_name form) in
  if String.eqb name EmptyString then Rejected "Please enter a player name."
  else if negb (String.eqb name edit_player) && name_in name df
  then Rejected (already_exists name)
  else
    let updated_data := with_name name form in
    Evaluated updated_data
      (calculate_single_player_metrics updated_data
         (without_player df edit_player)).

(* ================================================================== *)
(** ** The evaluator on frame objects

    In Python a frame is an object and [df_combined[...] = ...] changes
    it in place.  Here the frames live in a store, a call runs on the
    store, and the evaluator is written with the allocations and the
    assignments it performs. *)

Scheme Equality for column.

Module Heap.

(** A frame object: its rows and the ['norm_<col>'] columns assigned
    to it, the most recent assignment first. *)
Record FrameObject : Type := {
  frame_rows : DataFrame;
  assigned : list (column * Series)
}.

Definition address : Type := nat.
Definition Store : Type := list FrameObject.

(** A computation on the store; [None] is a raised exception. *)
Definition M (A : Type) : Type := Store -> option (A * Store).

Definition ret {A : Type} (a : A) : M A := fun s => Some (a, s).

Definition bind {A B : Type} (m : M A) (k : A -> M B) : M B :=
  fun s => match m s with
           | Some (a, s') => k a s'
           | None => None
           end.

Definition raise {A : Type} : M A := fun _ => None.

Notation "x <- m ;; k" := (bind m (fun x => k))
  (at level 61, m at next level, right associativity).

Definition new_frame (o : FrameObject) : M address :=
  fun s => Some (List.length s, s ++ [o]).

Definition read (a : address) : M FrameObject :=
  fun s => match nth_error s a with
           | Some o => Some (o, s)
           | None => None
           end.

Fixpoint set_nth (a : address) (o : FrameObject) (s : Store) : Store :=
  match s, a with
  | [], _ => []
  | _ :: t, O => o :: t
  | x :: t, S a' => x :: set_nth a' o t
  end.

Definition write (a : address) (o : FrameObject) : M unit :=
  fun s => match nth_error s a with
           | Some _ => Some (tt, set_nth a o s)
           | None => None
           end.

Fixpoint lookup (col : column) (cols : list (column * Series))
    : option Series :=
  match cols with
  | [] => None
  | (c, s) :: t => if column_beq c col then Some s else lookup col t
  end.

(** [pd.concat([df, pd.DataFrame([player_data])], ignore_index=True)]:
    a new object; a column the new row lacks is NaN there. *)
Definition concat (df : address) (player_data : PlayerRecord) : M address :=
  o <- read df ;;
  new_frame {| frame_rows := pd_concat (frame_rows o) player_data;
               assigned := map (fun cs => (fst cs, snd cs ++ [NaN]))
                               (assigned o) |}.

(** [df[col]] *)
Definition getitem (df : address) (col : column) : M Series :=
  o <- read df ;; ret (getitem (frame_rows o) col).

(** [df[f'norm_{col}'] = s] and [df[f'norm_{col}'] = 0] *)
Definition setitem (df : address) (col : column) (s : Series) : M unit :=
  o <- read df ;;
  write df {| frame_rows := frame_rows o;
              assigned := (col, s) :: assigned o |}.

Definition setitem_scalar (df : address) (col : column) (v : float)
    : M unit :=
  o <- read df ;;
  write df {| frame_rows := frame_rows o;
              assigned := (col, map (fun _ => v) (frame_rows o))
                          :: assigned o |}.

(** One turn of the two normalization loops. *)
Definition normalize_into (df_combined : address) (col : column) : M unit :=
  values <- getitem df_combined col ;;
  let col_min := series_min values in
  let col_max := series_max values in
  if fgtb (fsub col_max col_min) (Fin 0)
  then setitem df_combined col
         (div_scalar (sub_scalar values col_min) (fsub col_max col_min))
  else setitem_scalar df_combined col (Fin 0).

Fixpoint for_each (cols : list column) (body : column -> M unit) : M unit :=
  match cols with
  | [] => ret tt
  | col :: rest => _ <- body col ;; for_each rest body
  end.

(** [df.iloc[-1]]: the last row, as its ['norm_<col>'] entries and its
    ['games_played'] entry. *)
Definition iloc_last_row (df : address)
    : M ((column -> option float) * float) :=
  o <- read df ;;
  match frame_rows o with
  | [] => raise
  | _ :: _ =>
      ret (fun col => option_map iloc_last (lookup col (assigned o)),
           iloc_last (games_col (frame_rows o)))
  end.

(** [new_player[f'norm_{col}']] *)
Definition item (row : column -> option float) (col : column) : M float :=
  match row col with
  | Some v => ret v
  | None => raise
  end.

Definition calculate_single_player_metrics
    (player_data : PlayerRecord) (df : address) : M (float * float) :=
  df_combined <- concat df player_data ;;
  _ <- for_each features_cem (normalize_into df_combined) ;;
  _ <- for_each features_extra (normalize_into df_combined) ;;
  new_player <- iloc_last_row df_combined ;;
  n_ppg <- item (fst new_player) c_ppg ;;
  n_rpg <- item (fst new_player) c_rpg ;;
  n_apg <- item (fst new_player) c_apg ;;
  n_spg <- item (fst new_player) c_spg ;;
  n_bpg <- item (fst new_player) c_bpg ;;
  n_to <- item (fst new_player) c_to ;;
  n_fg <- item (fst new_player) c_fg ;;
  n_ft <- item (fst new_player) c_ft ;;
  n_3p <- item (fst new_player) c_3p ;;
  n_2p <- item (fst new_player) c_2p ;;
  let cem :=
    (lit 0.35 * n_ppg + lit 0.20 * n_rpg + lit 0.20 * n_apg +
     lit 0.05 * n_spg + lit 0.05 * n_bpg - lit 0.10 * n_to +
     lit 0.10 * n_fg + lit 0.05 * n_ft)%fl in
  let final_cem := (cem * np_log (snd new_player))%fl in
  let per_like :=
    (lit 0.35 * n_ppg + lit 0.20 * n_rpg + lit 0.20 * n_apg +
     lit 0.05 * n_spg + lit 0.05 * n_bpg + lit 0.10 * n_fg +
     lit 0.07 * n_3p + lit 0.05 * n_2p + lit 0.05 * n_ft -
     lit 0.10 * n_to)%fl in
  let mvpcem := (per_like * np_log (snd new_player))%fl in
  ret (final_cem, mvpcem).

(** The frame object after the normalization loops over [cols]. *)
Definition normalized (cols : list column) (o : FrameObject) : FrameObject :=
  fold_left
    (fun o' col =>
       {| frame_rows := frame_rows o';
          assigned := (col, normalize_guarded (frame_rows o') col)
                      :: assigned o' |})
    cols o.

(** The bounds [(min, max)] of a column of the frame at an address. *)
Definition bounds (s : Store) (df : address) (col : column)
    : option (float * float) :=
  match getitem df col s with
  | Some (values, _) => Some (series_min values, series_max values)
  | None => None
  end.

End Heap.

(* ================================================================== *)
(** ** Sample data *)

Definition player_a : PlayerRecord :=
  {| player_name := "Player A"; conference := "EAST"; games_played := 70;
     mp := 30; ppg := 20; rpg := 5; apg := 4; spg := 1; bpg := 0.5;
     turnovers := 2; fg_pct := 0.45; three_pct := 0.35; two_pct := 0.50;
     ft_pct := 0.80; Salary := 10000000 |}.

(** A second player, with the same blocks per game as [player_a]. *)
Definition player_b : PlayerRecord :=
  {| player_name := "Player B"; conference := "WEST"; games_played := 82;
     mp := 34; ppg := 27; rpg := 8; apg := 6; spg := 1.5; bpg := 0.5;
     turnovers := 3; fg_pct := 0.50; three_pct := 0.38; two_pct := 0.55;
     ft_pct := 0.85; Salary := 30000000 |}.

(** A record with no game played. *)
Definition player_idle : PlayerRecord :=
  {| player_name := "Player C"; conference := "WEST"; games_played := 0;
     mp := 12; ppg := 25; rpg := 3; apg := 2; spg := 0.5; bpg := 0.2;
     turnovers := 1; fg_pct := 0.40; three_pct := 0.30; two_pct := 0.45;
     ft_pct := 0.70; Salary := 1000000 |}.

(** A store with one frame, the dataset of two players. *)
Definition sample_store : Heap.Store :=
  [ {| Heap.frame_rows := [player_a; player_b]; Heap.assigned := [] |} ].

Definition add_form : PlayerRecord := with_name "Player C" player_idle.

(** Scored populations, given by the name and the metric of each row. *)
Definition scored_tied : list (string * float) :=
  [("P1", Fin 1); ("P2", Fin 1); ("P3", Fin 2)]%string.

Definition scored_two : list (string * float) :=
  [("P1", Fin 1); ("P2", Fin 2)]%string.

(** Three tied records and one above them. *)
Definition scored_ties : list (string * float) :=
  [("P1", Fin 2); ("P2", Fin 2); ("P3", Fin 2); ("P4", Fin 7)]%string.

Definition scored_four : list (string * float) :=
  [("P0", Fin 0); ("P1", Fin 1); ("P2", Fin 2); ("P3", Fin 3)]%string.


(* ================================================================== *)
(** ** The dataset file

    Each of the three functions reads [AllStar_Dataset.csv], changes the
    frame and writes it back; it is modelled by its return value and the
    frame it writes, as a function of the frame that [pd.read_csv]
    returned for the file.  The passage of a frame through the text of
    the file is not modelled: the frame read next is the frame written
    only when [pd.read_csv] returns every name as it was written, which
    it does not for a name such as NA, null or None, read as a missing
    value. *)

(** [save_player_to_csv]: the new row is appended. *)
Definition save_player_to_csv (player_data : PlayerRecord) (csv : DataFrame)
    : bool * DataFrame :=
  (true, pd_concat csv player_data).

(** [delete_player_from_csv]: [df[df['player_name'] != player_name]]. *)
Definition delete_player_from_csv (name : string) (csv : DataFrame)
    : bool * DataFrame :=
  (true, filter (fun r => negb (String.eqb (player_name r) name)) csv).

(** [df.loc[idx[0], key] = value] for every key of [player_data], a
    dictionary with all the columns: the first row named [original_name]
    takes the values of [player_data]. *)
Fixpoint replace_first (original_name : string) (player_data : PlayerRecord)
    (df : DataFrame) : DataFrame :=
  match df with
  | [] => []
  | r :: rest =>
      if String.eqb (player_name r) original_name
      then player_data :: rest
      else r :: replace_first original_name player_data rest
  end.

(** [update_player_in_csv]: nothing is written when no row has the
    name. *)
Definition update_player_in_csv (original_name : string)
    (player_data : PlayerRecord) (csv : DataFrame) : bool * DataFrame :=
  if name_in original_name csv
  then (true, replace_first original_name player_data csv)
  else (false, csv).

(** *** The three forms of [main] with the file

    The frame [df] of the forms is [load_data()], the frame read from
    the file, and [csv] below is that frame: the cache is cleared after
    every change.  A flow is one submission; what the next submission
    reads is the file read again, under the proviso above.  A submission
    that is rejected writes nothing. *)

Definition add_player_flow (form : PlayerRecord) (csv : DataFrame)
    : submission * DataFrame :=
  match add_player_submitted csv form with
  | Evaluated player_data scores =>
      (Evaluated player_data scores,
       snd (save_player_to_csv player_data csv))
  | Rejected message => (Rejected message, csv)
  end.

Definition edit_player_flow (edit_player : string) (form : PlayerRecord)
    (csv : DataFrame) : submission * DataFrame :=
  match edit_player_submitted csv edit_player form with
  | Evaluated updated_data scores =>
      (Evaluated updated_data scores,
       snd (update_player_in_csv edit_player updated_data csv))
  | Rejected message => (Rejected message, csv)
  end.

Definition delete_player_flow (selected_player : string) (csv : DataFrame)
    : DataFrame :=
  snd (delete_player_from_csv selected_player csv).


(** The names of the file are pairwise different. *)
Definition unique_names (csv : DataFrame) : Prop :=
  NoDup (map player_name csv).

(* ================================================================== *)
(** ** The rankings of [main] *)

(** A row of the scored frame. *)
Record ScoredRow : Type := {
  record : PlayerRecord;
  row_norm : column -> float;
  row_CEM : float;
  row_Final_CEM : float;
  row_PER_like : float;
  row_MVPCEM : float
}.

(** The rows of a scored frame, in index order. *)
Definition iterrows (sf : ScoredFrame) : list ScoredRow :=
  map (fun ir =>
         let i := fst ir in
         {| record := snd ir;
            row_norm := fun col => nth i (norm sf col) NaN;
            row_CEM := nth i (CEM sf) NaN;
            row_Final_CEM := nth i (Final_CEM sf) NaN;
            row_PER_like := nth i (PER_like sf) NaN;
            row_MVPCEM := nth i (MVPCEM sf) NaN |})
      (combine (seq 0 (length (rows sf))) (rows sf)).

(** The two values of [metric_options]. *)
Inductive metric_key : Type :=
| key_Final_CEM
| key_MVPCEM.

Definition metric_of (selected_metric : metric_key) (row : ScoredRow) : float :=
  match selected_metric with
  | key_Final_CEM => row_Final_CEM row
  | key_MVPCEM => row_MVPCEM row
  end.

(** The conference filter; [None] is the option 'All'. *)
Definition filter_conference (selected_conference : option string)
    (df_metrics : list ScoredRow) : list ScoredRow :=
  match selected_conference with
  | None => df_metrics
  | Some c =>
      filter (fun row => String.eqb (conference (record row)) c) df_metrics
  end.

(** [df_classified] of [main]: the metrics of the whole dataset, the
    conference filter, the classifier. *)
Definition rank_players (df : DataFrame) (selected_conference : option string)
    (selected_metric : metric_key)
    : outcome (list (ScoredRow * option Category)) :=
  let df_metrics := iterrows (calculate_metrics df) in
  let df_filtered := filter_conference selected_conference df_metrics in
  classify_players (metric_of selected_metric) df_filtered.

Scheme Equality for Category.

(** The order of the tiers. *)
Definition tier_rank (c : Category) : nat :=
  match c with
  | All_Star_Caliber => 0
  | All_NBA_Caliber => 1
  | MVP_Caliber => 2
  end.

(** The three figures above the chart: the number of players, the number
    of MVP Caliber players, the name in the first row. *)
Definition total_players {A : Type} (df_classified : list (A * option Category))
    : nat :=
  length df_classified.

Definition has_category (category : Category) (c : option Category) : bool :=
  match c with
  | Some c' => Category_beq c' category
  | None => false
  end.

Definition mvp_count {A : Type} (df_classified : list (A * option Category))
    : nat :=
  length (filter (fun row => has_category MVP_Caliber (snd row)) df_classified).

Definition top_row {A : Type} (df_classified : list (A * option Category))
    : option A :=
  match df_classified with
  | [] => None
  | row :: _ => Some (fst row)
  end.

(* ================================================================== *)
(** ** The bar chart: [create_rankings_chart]

    The figure is modelled by its traces: one trace per category, in the
    order of the loop, with the rows it draws from bottom to top.  The
    colours and the rounded labels are left out. *)
Section Chart.

Context {A : Type}.
Variable metric : A -> float.

(** Ascending order of the metric, rows whose metric is NaN last. *)
Definition goes_before_ascending (a b : A * option Category) : bool :=
  if isna (metric (fst b)) then true
  else if isna (metric (fst a)) then false
  else negb (fltb (metric (fst b)) (metric (fst a))).

Fixpoint insert_ascending (a : A * option Category)
    (l : list (A * option Category)) : list (A * option Category) :=
  match l with
  | [] => [a]
  | b :: t =>
      if goes_before_ascending a b then a :: b :: t
      else b :: insert_ascending a t
  end.

(** [df.sort_values(by=metric, ascending=True)] *)
Definition sort_values_ascending (df : list (A * option Category))
    : list (A * option Category) :=
  fold_right insert_ascending [] df.

Definition chart_categories : list Category :=
  [All_Star_Caliber; All_NBA_Caliber; MVP_Caliber].

Definition create_rankings_chart (df : list (A * option Category))
    : list (Category * list A) :=
  let df_sorted := sort_values_ascending df in
  map (fun category =>
         (category,
          map fst (filter (fun row => has_category category (snd row))
                          df_sorted)))
      chart_categories.

End Chart.

(* ================================================================== *)
(** ** More sample data *)

(** The widget values of a player with one game played. *)
Definition rookie : PlayerRecord :=
  {| player_name := " Rookie "; conference := "EAST"; games_played := 1;
     mp := 40; ppg := 31; rpg := 12; apg := 9; spg := 2; bpg := 1.5;
     turnovers := 4; fg_pct := 0.60; three_pct := 0.45; two_pct := 0.65;
     ft_pct := 0.90; Salary := 500000 |}.

(** A third player, above [player_a] in every feature. *)
Definition player_d : PlayerRecord :=
  {| player_name := "Player D"; conference := "WEST"; games_played := 82;
     mp := 36; ppg := 28; rpg := 9; apg := 7; spg := 1.6; bpg := 0.8;
     turnovers := 3; fg_pct := 0.52; three_pct := 0.40; two_pct := 0.56;
     ft_pct := 0.88; Salary := 40000000 |}.


(* ================================================================== *)
(** * Properties *)

(** ** Columns and rows *)

Lemma nth_error_map2 (f : float -> float -> float) (s t : Series) i x y :
  nth_error s i = Some x -> nth_error t i = Some y ->
  nth_error (map2 f s t) i = Some (f x y).
Proof.
  revert t i; induction s as [|a s IH]; intros [|b t] [|i]; cbn;
    try discriminate.
  - now intros [= ->] [= ->].
  - apply IH.
Qed.

Lemma map2_length (f : float -> float -> float) (s t : Series) :
  length (map2 f s t) = Nat.min (length s) (length t).
Proof.
  revert t; induction s as [|a s IH]; intros [|b t]; cbn; auto.
Qed.

Lemma nth_error_scalar_mul c s i x :
  nth_error s i = Some x -> nth_error (scalar_mul c s) i = Some (fmul c x).
Proof. intros H; unfold scalar_mul; now rewrite nth_error_map, H. Qed.

Lemma nth_error_getitem df col i r :
  nth_error df i = Some r -> nth_error (getitem df col) i = Some (Fin (raw col r)).
Proof. intros H; unfold getitem; now rewrite nth_error_map, H. Qed.

Lemma nth_error_games_col df i r :
  nth_error df i = Some r ->
  nth_error (games_col df) i = Some (Fin (IZR (games_played r))).
Proof. intros H; unfold games_col; now rewrite nth_error_map, H. Qed.

(** The entry of a normalized column at a row of the frame. *)
Lemma nth_error_normalize_column df col i r :
  nth_error df i = Some r ->
  nth_error (normalize_column df col) i = Some (batch_normalize df col r).
Proof.
  intros H; unfold normalize_column, div_scalar, sub_scalar, batch_normalize.
  now rewrite !nth_error_map, (nth_error_getitem _ col _ _ H).
Qed.

(** [np.log] is the natural logarithm from one game on. *)
Lemma np_log_games (g : Z) :
  (1 <= g)%Z -> np_log (Fin (IZR g)) = Fin (ln (IZR g)).
Proof.
  intros Hg; unfold np_log.
  destruct (Rlt_dec 0 (IZR g)) as [_|Hn]; [reflexivity|].
  exfalso; apply Hn; apply IZR_lt; lia.
Qed.

(** The row that the batch scorer computes for a record. *)
Lemma calculate_metrics_rows (df : DataFrame) (i : nat) (r : PlayerRecord) :
  nth_error df i = Some r ->
  let sf := calculate_metrics df in
  let n := fun col => batch_normalize df col r in
  let games := np_log (Fin (IZR (games_played r))) in
  nth_error (rows sf) i = Some r /\
  (forall col, nth_error (norm sf col) i = Some (n col)) /\
  nth_error (CEM sf) i = Some (spec_CEM n) /\
  nth_error (Final_CEM sf) i = Some (fmul (spec_CEM n) games) /\
  nth_error (PER_like sf) i = Some (spec_PERLike n) /\
  nth_error (MVPCEM sf) i = Some (fmul (spec_PERLike n) games).
Proof.
  intros H sf n games.
  assert (Hn : forall col, nth_error (normalize_column df col) i = Some (n col))
    by (intros col; now apply nth_error_normalize_column).
  assert (Hg : nth_error (series_log (games_col df)) i = Some games).
  { unfold series_log; rewrite nth_error_map.
    now rewrite (nth_error_games_col _ _ _ H). }
  assert (HC : nth_error (CEM sf) i = Some (spec_CEM n)).
  { cbn; unfold spec_CEM, series_add, series_sub.
    repeat (apply nth_error_map2 || apply nth_error_scalar_mul); apply Hn. }
  assert (HP : nth_error (PER_like sf) i = Some (spec_PERLike n)).
  { cbn; unfold spec_PERLike, series_add, series_sub.
    repeat (apply nth_error_map2 || apply nth_error_scalar_mul); apply Hn. }
  repeat split; auto.
  - cbn; unfold series_mul; apply nth_error_map2; [exact HC | exact Hg].
  - cbn; unfold series_mul; apply nth_error_map2; [exact HP | exact Hg].
Qed.

(** ** Bounds of a column *)

(** On a non-empty column of finite values, [min()] is the least value
    and [max()] the greatest. *)
Lemma series_min_finite (l : list R) :
  l <> [] ->
  exists m, series_min (map Fin l) = Fin m /\ In m l /\
            forall x, In x l -> m <= x.
Proof.
  induction l as [|a l IH]; [congruence|intros _].
  destruct l as [|b l].
  - exists a; cbn; repeat split; auto.
    intros x [<-|[]]; lra.
  - destruct IH as (m & Hm & Hin & Hle); [discriminate|].
    change (series_min (map Fin (a :: b :: l)))
      with (fmin2 (Fin a) (series_min (map Fin (b :: l)))).
    rewrite Hm; unfold fmin2; cbn.
    destruct (Rlt_dec m a) as [Hlt|Hge].
    + exists m; repeat split; [now right|].
      intros x [<-|Hx]; [lra|now apply Hle].
    + exists a; repeat split; [now left|].
      intros x [<-|Hx]; [lra|]. specialize (Hle x Hx); lra.
Qed.

Lemma series_max_finite (l : list R) :
  l <> [] ->
  exists m, series_max (map Fin l) = Fin m /\ In m l /\
            forall x, In x l -> x <= m.
Proof.
  induction l as [|a l IH]; [congruence|intros _].
  destruct l as [|b l].
  - exists a; cbn; repeat split; auto.
    intros x [<-|[]]; lra.
  - destruct IH as (m & Hm & Hin & Hle); [discriminate|].
    change (series_max (map Fin (a :: b :: l)))
      with (fmax2 (Fin a) (series_max (map Fin (b :: l)))).
    rewrite Hm; unfold fmax2; cbn.
    destruct (Rlt_dec a m) as [Hlt|Hge].
    + exists m; repeat split; [now right|].
      intros x [<-|Hx]; [lra|now apply Hle].
    + exists a; repeat split; [now left|].
      intros x [<-|Hx]; [lra|]. specialize (Hle x Hx); lra.
Qed.

Lemma getitem_map_Fin df col : getitem df col = map Fin (map (raw col) df).
Proof. unfold getitem; now rewrite map_map. Qed.

(** The bounds of a feature over a non-empty population. *)
Lemma column_bounds (df : DataFrame) (col : column) :
  df <> [] ->
  exists lo hi,
    series_min (getitem df col) = Fin lo /\
    series_max (getitem df col) = Fin hi /\
    lo <= hi /\
    (forall r, In r df -> lo <= raw col r <= hi) /\
    (exists r, In r df /\ raw col r = lo) /\
    (exists r, In r df /\ raw col r = hi).
Proof.
  intros Hne.
  assert (Hl : map (raw col) df <> []) by (destruct df; [congruence|discriminate]).
  destruct (series_min_finite _ Hl) as (lo & Hlo & Hin & Hle).
  destruct (series_max_finite _ Hl) as (hi & Hhi & Hin' & Hge).
  exists lo, hi; rewrite getitem_map_Fin; repeat split; auto.
  - apply Hle, in_map, H.
  - apply Hge, in_map, H.
  - apply in_map_iff in Hin as (r & <- & Hr); eauto.
  - apply in_map_iff in Hin' as (r & <- & Hr); eauto.
Qed.

(** ** Normalization: the regular and the degenerate case *)

Lemma scale_inf_zero positive : scale_inf positive 0 = NaN.
Proof.
  unfold scale_inf.
  destruct (Rlt_dec 0 0); [lra|]. reflexivity.
Qed.

(** With distinct bounds the normalized value of a record of the
    population is a real number of the interval [0, 1]. *)
Lemma batch_normalize_regular df col r :
  In r df -> ~ degenerate df col ->
  exists x, batch_normalize df col r = Fin x /\ 0 <= x <= 1.
Proof.
  intros Hr Hnd.
  destruct (column_bounds df col) as (lo & hi & Hlo & Hhi & Hle & Hb & _).
  { intros ->; destruct Hr. }
  unfold degenerate in Hnd; rewrite Hlo, Hhi in Hnd.
  assert (Hlt : lo < hi).
  { destruct (Rle_lt_or_eq_dec _ _ Hle) as [H|H]; [exact H|].
    exfalso; apply Hnd; now rewrite H. }
  unfold batch_normalize; rewrite Hlo, Hhi; cbn [fdiv fsub fadd fneg].
  destruct (Req_dec_T (hi + - lo) 0) as [H0|_]; [lra|].
  eexists; split; [reflexivity|].
  specialize (Hb r Hr).
  split.
  - apply Rmult_le_pos; [lra|]. left; apply Rinv_0_lt_compat; lra.
  - apply Rmult_le_reg_r with (hi + - lo); [lra|].
    unfold Rdiv; rewrite Rmult_assoc, Rinv_l by lra. lra.
Qed.

(** With equal bounds the batch formula divides zero by zero. *)
Lemma batch_normalize_degenerate df col r :
  In r df -> degenerate df col -> batch_normalize df col r = NaN.
Proof.
  intros Hr Hd.
  destruct (column_bounds df col) as (lo & hi & Hlo & Hhi & Hle & Hb & _).
  { intros ->; destruct Hr. }
  unfold degenerate in Hd; rewrite Hlo, Hhi in Hd.
  injection Hd as ->.
  unfold batch_normalize; rewrite Hlo, Hhi; cbn [fdiv fsub fadd fneg].
  destruct (Req_dec_T (lo + - lo) 0) as [_|H0]; [|lra].
  specialize (Hb r Hr).
  replace (raw col r + - lo) with 0 by lra.
  apply scale_inf_zero.
Qed.

(** The test [col_max - col_min > 0] of the evaluator holds exactly
    when the feature is not degenerate. *)
Lemma guard_true_iff df col :
  df <> [] ->
  fgtb (fsub (series_max (getitem df col)) (series_min (getitem df col)))
       (Fin 0) = true <-> ~ degenerate df col.
Proof.
  intros Hne.
  destruct (column_bounds df col Hne) as (lo & hi & Hlo & Hhi & Hle & _).
  unfold degenerate; rewrite Hlo, Hhi; cbn [fgtb fltb fsub fadd fneg].
  destruct (Rlt_dec 0 (hi + - lo)) as [H|H]; split; intros H'; auto.
  - intros [= E]; lra.
  - discriminate.
  - exfalso; apply H'; f_equal; lra.
Qed.

(** ** The evaluator, row by row *)

Lemma iloc_last_map {A : Type} (f : A -> float) (l : list A) (a : A) :
  iloc_last (map f (l ++ [a])) = f a.
Proof. unfold iloc_last; rewrite map_app; cbn; apply last_last. Qed.

Lemma iloc_last_normalize_guarded df p col :
  iloc_last (normalize_guarded (pd_concat df p) col)
  = guarded_normalize (pd_concat df p) col p.
Proof.
  unfold normalize_guarded, guarded_normalize, pd_concat.
  destruct (fgtb _ _).
  - unfold div_scalar, sub_scalar, getitem; rewrite !map_map.
    now rewrite iloc_last_map.
  - now rewrite iloc_last_map.
Qed.

(** The scores of the evaluator are the two weighted sums over the
    guarded normalized values of the candidate. *)
Lemma calculate_single_player_metrics_eq (p : PlayerRecord) (df : DataFrame) :
  let n := guarded_normalize (pd_concat df p) in
  let games := np_log (Fin (IZR (games_played p))) in
  calculate_single_player_metrics p df
  = (fmul (spec_CEM (fun col => n col p)) games,
     fmul (spec_PERLike (fun col => n col p)) games).
Proof.
  cbv zeta; unfold calculate_single_player_metrics.
  cbv zeta; rewrite !iloc_last_normalize_guarded.
  unfold games_col, pd_concat; rewrite iloc_last_map.
  reflexivity.
Qed.

Lemma nth_error_pd_concat df p :
  nth_error (pd_concat df p) (length df) = Some p.
Proof.
  unfold pd_concat; rewrite nth_error_app2 by lia.
  now rewrite Nat.sub_diag.
Qed.

Lemma pd_concat_nonempty df p : pd_concat df p <> [].
Proof. unfold pd_concat; destruct df; discriminate. Qed.

Lemma in_pd_concat df p : In p (pd_concat df p).
Proof. unfold pd_concat; apply in_or_app; right; now left. Qed.

Lemma guarded_normalize_regular dfc col r :
  dfc <> [] -> ~ degenerate dfc col ->
  guarded_normalize dfc col r = batch_normalize dfc col r.
Proof.
  intros Hne Hnd; unfold guarded_normalize.
  apply (guard_true_iff dfc col Hne) in Hnd; now rewrite Hnd.
Qed.

Lemma guarded_normalize_degenerate dfc col r :
  dfc <> [] -> degenerate dfc col -> guarded_normalize dfc col r = Fin 0.
Proof.
  intros Hne Hd; unfold guarded_normalize.
  destruct (fgtb _ _) eqn:E; [|reflexivity].
  apply (guard_true_iff dfc col Hne) in E; contradiction.
Qed.

Lemma degenerate_dec df col : df <> [] -> {degenerate df col} + {~ degenerate df col}.
Proof.
  intros Hne; unfold degenerate.
  destruct (series_max (getitem df col)) as [hi| | |] eqn:Ehi,
           (series_min (getitem df col)) as [lo| | |] eqn:Elo;
    try (right; discriminate); try (left; reflexivity).
  destruct (Req_dec_T hi lo) as [->|Hn]; [now left|right].
  intros [= E]; contradiction.
Qed.

(** The guarded value of a record of the combined frame is always a
    real number of [0, 1]. *)
Lemma guarded_normalize_unit dfc col r :
  In r dfc -> in_unit_interval (guarded_normalize dfc col r).
Proof.
  intros Hr.
  assert (Hne : dfc <> []) by (intros ->; destruct Hr).
  destruct (degenerate_dec dfc col Hne) as [Hd|Hnd].
  - rewrite guarded_normalize_degenerate by assumption.
    exists 0; split; [reflexivity|lra].
  - rewrite guarded_normalize_regular by assumption.
    now apply batch_normalize_regular.
Qed.

(** ** NaN and finite values in the weighted sums *)

Lemma fadd_NaN_r x : fadd x NaN = NaN.
Proof. now destruct x. Qed.

Lemma fadd_NaN_l x : fadd NaN x = NaN.
Proof. now destruct x. Qed.

Lemma fsub_NaN_r x : fsub x NaN = NaN.
Proof. now destruct x. Qed.

Lemma fsub_NaN_l x : fsub NaN x = NaN.
Proof. now destruct x. Qed.

Lemma fmul_NaN_r x : fmul x NaN = NaN.
Proof. now destruct x. Qed.

Lemma fmul_NaN_l x : fmul NaN x = NaN.
Proof. now destruct x. Qed.

Ltac nan_through :=
  repeat (rewrite ?fadd_NaN_r, ?fadd_NaN_l, ?fsub_NaN_r, ?fsub_NaN_l,
                  ?fmul_NaN_r, ?fmul_NaN_l);
  try reflexivity.

(** One NaN among the normalized features makes the weighted sum NaN. *)
Lemma spec_CEM_NaN (n : column -> float) (col : column) :
  In col features_cem -> n col = NaN -> spec_CEM n = NaN.
Proof.
  intros Hin H; unfold spec_CEM, features_cem in *; cbn in Hin.
  repeat (destruct Hin as [<-|Hin]; [rewrite H; now nan_through|]).
  destruct Hin.
Qed.

Lemma spec_PERLike_NaN (n : column -> float) (col : column) :
  n col = NaN -> spec_PERLike n = NaN.
Proof.
  intros H; unfold spec_PERLike; destruct col; rewrite H; now nan_through.
Qed.

(** Finite normalized features give finite weighted sums. *)
Lemma spec_CEM_finite (n : column -> float) :
  (forall col, exists x, n col = Fin x) -> exists c, spec_CEM n = Fin c.
Proof.
  intros H; unfold spec_CEM.
  destruct (H c_ppg) as (? & ->), (H c_rpg) as (? & ->),
    (H c_apg) as (? & ->), (H c_spg) as (? & ->), (H c_bpg) as (? & ->),
    (H c_to) as (? & ->), (H c_fg) as (? & ->), (H c_ft) as (? & ->).
  cbn; eexists; reflexivity.
Qed.

Lemma spec_PERLike_finite (n : column -> float) :
  (forall col, exists x, n col = Fin x) -> exists c, spec_PERLike n = Fin c.
Proof.
  intros H; unfold spec_PERLike.
  destruct (H c_ppg) as (? & ->), (H c_rpg) as (? & ->),
    (H c_apg) as (? & ->), (H c_spg) as (? & ->), (H c_bpg) as (? & ->),
    (H c_to) as (? & ->), (H c_fg) as (? & ->), (H c_ft) as (? & ->),
    (H c_3p) as (? & ->), (H c_2p) as (? & ->).
  cbn; eexists; reflexivity.
Qed.

(** ** The evaluator against the batch scorer *)

(** When no feature is degenerate over the extended population, the
    evaluator returns the scores that the batch scorer puts in the last
    row of the extended population. *)
Lemma evaluator_agrees_when_regular (df : DataFrame) (p : PlayerRecord) :
  (forall col, ~ degenerate (pd_concat df p) col) ->
  let sf := calculate_metrics (pd_concat df p) in
  nth_error (Final_CEM sf) (length df)
    = Some (fst (calculate_single_player_metrics p df)) /\
  nth_error (MVPCEM sf) (length df)
    = Some (snd (calculate_single_player_metrics p df)).
Proof.
  intros Hreg sf.
  destruct (calculate_metrics_rows (pd_concat df p) (length df) p
              (nth_error_pd_concat df p))
    as (_ & _ & _ & HF & _ & HM).
  rewrite calculate_single_player_metrics_eq; cbn [fst snd].
  assert (E : forall col, guarded_normalize (pd_concat df p) col p
                          = batch_normalize (pd_concat df p) col p).
  { intros col; apply guarded_normalize_regular;
      [apply pd_concat_nonempty|apply Hreg]. }
  unfold spec_CEM, spec_PERLike; rewrite !E; split; assumption.
Qed.

(** With at least one game played the scores of the evaluator are real
    numbers, whatever the populations. *)
Lemma evaluator_scores_finite (df : DataFrame) (p : PlayerRecord) :
  (1 <= games_played p)%Z ->
  exists x y, calculate_single_player_metrics p df = (Fin x, Fin y).
Proof.
  intros Hg; rewrite calculate_single_player_metrics_eq.
  rewrite np_log_games by assumption.
  assert (H : forall col, exists x,
             guarded_normalize (pd_concat df p) col p = Fin x).
  { intros col.
    destruct (guarded_normalize_unit (pd_concat df p) col p
                (in_pd_concat df p)) as (x & Hx & _); eauto. }
  destruct (spec_CEM_finite _ H) as (c & ->).
  destruct (spec_PERLike_finite _ H) as (c' & ->).
  cbn; eauto.
Qed.

(** A feature of the first index that is degenerate over the extended
    population makes both batch scores of the candidate NaN. *)
Lemma batch_scores_NaN_when_degenerate (df : DataFrame) (i : nat)
    (r : PlayerRecord) (col : column) :
  nth_error df i = Some r -> In col features_cem -> degenerate df col ->
  nth_error (Final_CEM (calculate_metrics df)) i = Some NaN /\
  nth_error (MVPCEM (calculate_metrics df)) i = Some NaN.
Proof.
  intros Hr Hcol Hd.
  destruct (calculate_metrics_rows df i r Hr) as (_ & _ & _ & HF & _ & HM).
  assert (Hn : batch_normalize df col r = NaN).
  { apply batch_normalize_degenerate; [|assumption].
    eapply nth_error_In; eassumption. }
  rewrite HF, HM.
  rewrite (spec_CEM_NaN _ col Hcol Hn), (spec_PERLike_NaN _ col Hn).
  now rewrite !fmul_NaN_l.
Qed.

(** ** Evaluation on sample data *)

Ltac decide_reals :=
  repeat (match goal with
          | |- context [Rlt_dec ?a ?b] =>
              destruct (Rlt_dec a b); [try (exfalso; lra)|try (exfalso; lra)]
          | |- context [Req_dec_T ?a ?b] =>
              destruct (Req_dec_T a b); [try (exfalso; lra)|try (exfalso; lra)]
          end; cbn).

Ltac fl_eval := cbn; decide_reals.

Lemma normalize_column_map df col :
  normalize_column df col = map (batch_normalize df col) df.
Proof.
  unfold normalize_column, div_scalar, sub_scalar, getitem.
  now rewrite !map_map.
Qed.

Lemma bpg_constant_a_b : degenerate [player_a; player_b] c_bpg.
Proof. unfold degenerate, series_max, series_min, fmax2, fmin2; now fl_eval. Qed.

Lemma single_record_degenerate r col : degenerate [r] col.
Proof. reflexivity. Qed.

(** ** The claims on the scorers *)



(** C2, at a reference population and a candidate that share their
    blocks per game: the batch scorer gives the candidate NaN for both
    scores in the extended population, and the evaluator gives two real
    numbers. *)
Theorem evaluator_differs_on_constant_feature :
  let sf := calculate_metrics (pd_concat [player_a] player_b) in
  nth_error (Final_CEM sf) 1 = Some NaN /\
  nth_error (MVPCEM sf) 1 = Some NaN /\
  exists x y,
    calculate_single_player_metrics player_b [player_a] = (Fin x, Fin y).
Proof.
  cbv zeta.
  destruct (batch_scores_NaN_when_degenerate
              (pd_concat [player_a] player_b) 1 player_b c_bpg)
    as (HF & HM).
  - reflexivity.
  - cbn; tauto.
  - exact bpg_constant_a_b.
  - repeat split; [exact HF|exact HM|].
    apply evaluator_scores_finite; cbn; lia.
Qed.

(** C3, at a population of one record and at a feature that is constant
    over two records: the evaluator's normalized column is 0 and the
    batch scorer's normalized column is NaN. *)
Theorem degenerate_normalization_zero_or_NaN :
  normalize_guarded [player_a] c_ppg = [Fin 0] /\
  normalize_column [player_a] c_ppg = [NaN] /\
  normalize_guarded [player_a; player_b] c_bpg = [Fin 0; Fin 0] /\
  normalize_column [player_a; player_b] c_bpg = [NaN; NaN].
Proof.
  repeat split.
  - unfold normalize_guarded; now fl_eval.
  - rewrite normalize_column_map; cbn [map].
    now rewrite batch_normalize_degenerate
      by (try apply single_record_degenerate; cbn; tauto).
  - unfold normalize_guarded, series_max, series_min, fmax2, fmin2;
      now fl_eval.
  - rewrite normalize_column_map; cbn [map].
    now rewrite !batch_normalize_degenerate
      by (try apply bpg_constant_a_b; cbn; tauto).
Qed.

(** C4, at a feature that is constant over the population: the
    normalized value of the batch scorer is NaN, which is no number of
    the interval [0, 1]. *)
Theorem normalized_constant_feature_outside_unit :
  nth_error (norm (calculate_metrics [player_a; player_b]) c_bpg) 0
    = Some NaN /\
  ~ in_unit_interval NaN.
Proof.
  split.
  - destruct (calculate_metrics_rows [player_a; player_b] 0 player_a eq_refl)
      as (_ & Hn & _).
    rewrite Hn; f_equal.
    apply batch_normalize_degenerate; [cbn; tauto|exact bpg_constant_a_b].
  - intros (x & Hx & _); discriminate.
Qed.

(** ** Games played below one *)

(** [np.log] of a count of games below one. *)
Lemma np_log_no_game (g : Z) :
  (g < 1)%Z ->
  np_log (Fin (IZR g)) = if (g =? 0)%Z then NInf else NaN.
Proof.
  intros Hg; unfold np_log.
  destruct (Rlt_dec 0 (IZR g)) as [Hpos|_].
  - apply lt_IZR in Hpos; lia.
  - destruct (Z.eqb_spec g 0) as [->|Hne].
    + destruct (Req_dec_T 0 0); [reflexivity|lra].
    + destruct (Req_dec_T (IZR g) 0) as [H0|_]; [|reflexivity].
      apply eq_IZR in H0; contradiction.
Qed.

Lemma normalize_idle col :
  batch_normalize [player_a; player_idle] col player_idle
  = Fin (match col with c_ppg => 1 | _ => 0 end).
Proof.
  destruct col;
    unfold batch_normalize, series_max, series_min, fmax2, fmin2;
    fl_eval; f_equal; field; lra.
Qed.

(** C8, at a record with no game played: the batch scorer raises
    nothing and produces the two scores, both minus infinity. *)
Lemma no_game_scored_minus_infinity :
  (games_played player_idle < 1)%Z /\
  nth_error (Final_CEM (calculate_metrics [player_a; player_idle])) 1
    = Some NInf /\
  nth_error (MVPCEM (calculate_metrics [player_a; player_idle])) 1
    = Some NInf.
Proof.
  split; [cbn; lia|].
  destruct (calculate_metrics_rows [player_a; player_idle] 1 player_idle
              eq_refl) as (_ & _ & _ & HF & _ & HM).
  rewrite HF, HM; unfold spec_CEM, spec_PERLike.
  change (games_played player_idle) with 0%Z.
  rewrite !normalize_idle, (np_log_no_game 0) by lia.
  split; f_equal; cbn; unfold scale_inf; decide_reals; reflexivity.
Qed.

(** C8 as amended: the scorers do not check the games played.  For a
    record with less than one game the batch scorer and the evaluator
    return their scores as for any other record, each weighted sum
    multiplied by [np.log] of the games played, which is minus infinity
    for no game and NaN for a negative count; with a negative count both
    scores are NaN. *)
Theorem scores_without_games_check (df : DataFrame) (i : nat)
    (r : PlayerRecord) :
  nth_error df i = Some r -> (games_played r < 1)%Z ->
  let log_games := if (games_played r =? 0)%Z then NInf else NaN in
  let n := fun col => batch_normalize df col r in
  (nth_error (Final_CEM (calculate_metrics df)) i
     = Some (fmul (spec_CEM n) log_games) /\
   nth_error (MVPCEM (calculate_metrics df)) i
     = Some (fmul (spec_PERLike n) log_games)) /\
  (forall ref : DataFrame,
     let n' := fun col => guarded_normalize (pd_concat ref r) col r in
     calculate_single_player_metrics r ref
     = (fmul (spec_CEM n') log_games, fmul (spec_PERLike n') log_games)) /\
  ((games_played r < 0)%Z ->
   nth_error (Final_CEM (calculate_metrics df)) i = Some NaN /\
   nth_error (MVPCEM (calculate_metrics df)) i = Some NaN /\
   forall ref, calculate_single_player_metrics r ref = (NaN, NaN)).
Proof.
  intros Hr Hg log_games n.
  destruct (calculate_metrics_rows df i r Hr) as (_ & _ & _ & HF & _ & HM).
  rewrite (np_log_no_game _ Hg) in HF, HM.
  assert (He : forall ref,
             calculate_single_player_metrics r ref
             = (fmul (spec_CEM (fun col =>
                        guarded_normalize (pd_concat ref r) col r)) log_games,
                fmul (spec_PERLike (fun col =>
                        guarded_normalize (pd_concat ref r) col r)) log_games)).
  { intros ref; rewrite calculate_single_player_metrics_eq.
    now rewrite (np_log_no_game _ Hg). }
  repeat split; try assumption.
  - rewrite HF; subst log_games.
    destruct (Z.eqb_spec (games_played r) 0); [lia|now rewrite fmul_NaN_r].
  - rewrite HM; subst log_games.
    destruct (Z.eqb_spec (games_played r) 0); [lia|now rewrite fmul_NaN_r].
  - intros ref; rewrite He; subst log_games.
    destruct (Z.eqb_spec (games_played r) 0); [lia|now rewrite !fmul_NaN_r].
Qed.

Lemma scores_without_games_check_witness :
  nth_error (Final_CEM (calculate_metrics [player_a; player_idle])) 1
  = Some (fmul (spec_CEM (fun col =>
             batch_normalize [player_a; player_idle] col player_idle)) NInf).
Proof.
  assert (Hg : (games_played player_idle < 1)%Z) by (cbn; lia).
  exact (proj1 (proj1 (scores_without_games_check
                         [player_a; player_idle] 1 player_idle eq_refl Hg))).
Defined.

(* ================================================================== *)
(** ** The evaluator on frame objects *)

Lemma nth_error_snoc {A : Type} (s : list A) (x : A) :
  nth_error (s ++ [x]) (length s) = Some x.
Proof. rewrite nth_error_app2 by lia; now rewrite Nat.sub_diag. Qed.

Lemma set_nth_snoc (s : Heap.Store) (x y : Heap.FrameObject) :
  Heap.set_nth (length s) y (s ++ [x]) = s ++ [y].
Proof. induction s as [|a s IH]; cbn; [reflexivity|now rewrite IH]. Qed.

(** One turn of a loop assigns the guarded column to the frame. *)
Lemma normalize_into_snoc (s : Heap.Store) (x : Heap.FrameObject)
    (col : column) :
  Heap.normalize_into (length s) col (s ++ [x])
  = Some (tt, s ++ [Heap.normalized [col] x]).
Proof.
  cbv beta iota delta
    [Heap.normalize_into Heap.getitem Heap.read Heap.ret Heap.bind].
  rewrite nth_error_snoc.
  unfold Heap.normalized, normalize_guarded; cbn [fold_left].
  destruct (fgtb _ _);
    cbv beta iota delta
      [Heap.setitem Heap.setitem_scalar Heap.bind Heap.read Heap.write];
    now rewrite !nth_error_snoc, set_nth_snoc.
Qed.

Lemma for_each_normalize_snoc (cols : list column) (s : Heap.Store)
    (x : Heap.FrameObject) :
  Heap.for_each cols (Heap.normalize_into (length s)) (s ++ [x])
  = Some (tt, s ++ [Heap.normalized cols x]).
Proof.
  revert x; induction cols as [|col cols IH]; intros x; [reflexivity|].
  cbn [Heap.for_each]; unfold Heap.bind at 1.
  rewrite normalize_into_snoc, IH.
  reflexivity.
Qed.

Lemma normalized_rows cols x :
  Heap.frame_rows (Heap.normalized cols x) = Heap.frame_rows x.
Proof.
  revert x; induction cols as [|c cols IH]; intros x; [reflexivity|].
  cbn; now rewrite IH.
Qed.

Lemma iloc_last_row_snoc (s : Heap.Store) (x : Heap.FrameObject) :
  Heap.frame_rows x <> [] ->
  Heap.iloc_last_row (length s) (s ++ [x])
  = Some ((fun col =>
             option_map iloc_last (Heap.lookup col (Heap.assigned x)),
           iloc_last (games_col (Heap.frame_rows x))), s ++ [x]).
Proof.
  intros Hne; cbv beta iota delta [Heap.iloc_last_row Heap.bind Heap.read].
  rewrite nth_error_snoc.
  destruct (Heap.frame_rows x); [congruence|reflexivity].
Qed.

(** A call of the evaluator on the frame at [df]: it returns the scores
    of [calculate_single_player_metrics] on the rows of that frame, and
    the store it leaves is the store it found with one more object at
    the end. *)
Lemma calculate_single_player_metrics_run (s : Heap.Store)
    (df : Heap.address) (o : Heap.FrameObject) (p : PlayerRecord) :
  nth_error s df = Some o ->
  exists df_combined : Heap.FrameObject,
    Heap.calculate_single_player_metrics p df s
    = Some (calculate_single_player_metrics p (Heap.frame_rows o),
            s ++ [df_combined]).
Proof.
  intros Hdf.
  unfold Heap.calculate_single_player_metrics.
  unfold Heap.bind at 1; unfold Heap.concat, Heap.bind at 1, Heap.read at 1.
  rewrite Hdf; unfold Heap.new_frame.
  set (x := {| Heap.frame_rows := pd_concat (Heap.frame_rows o) p;
               Heap.assigned := map (fun cs => (fst cs, snd cs ++ [NaN]))
                                    (Heap.assigned o) |}).
  unfold Heap.bind at 1; rewrite for_each_normalize_snoc.
  unfold Heap.bind at 1; rewrite for_each_normalize_snoc.
  exists (Heap.normalized features_extra (Heap.normalized features_cem x)).
  unfold Heap.bind at 1; rewrite iloc_last_row_snoc
    by (rewrite !normalized_rows; apply pd_concat_nonempty).
  rewrite !normalized_rows.
  unfold features_extra, features_cem, Heap.normalized; cbn [fold_left].
  cbn [Heap.assigned Heap.frame_rows Heap.lookup column_beq option_map
       Heap.item Heap.bind Heap.ret x fst snd].
  reflexivity.
Qed.

(** C10: a call of the evaluator on a frame of the store returns the
    scores of its rows, a second call with the same arguments returns
    the same scores, and after either call every frame that was in the
    store is the same object as before; in particular the minimum and
    the maximum of every feature of the reference frame are unchanged. *)
Theorem evaluator_idempotent_and_frame_preserving (s : Heap.Store)
    (df : Heap.address) (o : Heap.FrameObject) (p : PlayerRecord) :
  nth_error s df = Some o ->
  exists (scores : float * float) (s1 s2 : Heap.Store),
    Heap.calculate_single_player_metrics p df s = Some (scores, s1) /\
    Heap.calculate_single_player_metrics p df s1 = Some (scores, s2) /\
    scores = calculate_single_player_metrics p (Heap.frame_rows o) /\
    (forall a obj, nth_error s a = Some obj ->
                   nth_error s1 a = Some obj /\ nth_error s2 a = Some obj) /\
    (forall col, Heap.bounds s1 df col = Heap.bounds s df col /\
                 Heap.bounds s2 df col = Heap.bounds s df col).
Proof.
  intros Hdf.
  destruct (calculate_single_player_metrics_run s df o p Hdf)
    as (x1 & H1).
  assert (Hdf1 : nth_error (s ++ [x1]) df = Some o).
  { rewrite nth_error_app1; [assumption|].
    apply nth_error_Some; congruence. }
  destruct (calculate_single_player_metrics_run _ df o p Hdf1)
    as (x2 & H2).
  assert (Hkeep : forall (t : Heap.Store) a obj,
             nth_error s a = Some obj -> nth_error (s ++ t) a = Some obj).
  { intros t a obj Ha; rewrite nth_error_app1; [assumption|].
    apply nth_error_Some; congruence. }
  exists (calculate_single_player_metrics p (Heap.frame_rows o)),
    (s ++ [x1]), ((s ++ [x1]) ++ [x2]).
  repeat split; auto.
  - rewrite <- app_assoc; auto.
  - unfold Heap.bounds, Heap.getitem, Heap.bind, Heap.read.
    now rewrite Hdf1, Hdf.
  - unfold Heap.bounds, Heap.getitem, Heap.bind, Heap.read.
    rewrite <- app_assoc, (Hkeep _ _ _ Hdf), Hdf; reflexivity.
Qed.

Lemma evaluator_idempotent_and_frame_preserving_witness :
  exists (scores : float * float) (s1 s2 : Heap.Store),
    Heap.calculate_single_player_metrics player_idle 0%nat sample_store
      = Some (scores, s1) /\
    Heap.calculate_single_player_metrics player_idle 0%nat s1
      = Some (scores, s2) /\
    nth_error s2 0 = nth_error sample_store 0.
Proof.
  destruct (evaluator_idempotent_and_frame_preserving sample_store 0%nat _
              player_idle eq_refl)
    as (scores & s1 & s2 & H1 & H2 & _ & Hk & _).
  exists scores, s1, s2; repeat split; [exact H1|exact H2|].
  exact (proj2 (Hk 0%nat _ eq_refl)).
Defined.

(* ================================================================== *)
(** ** The calls of the evaluator in [main] *)

Lemma in_without_player df N r :
  In r (without_player df N) <-> In r df /\ player_name r <> N.
Proof.
  unfold without_player; rewrite filter_In.
  destruct (String.eqb_spec (player_name r) N); cbn; intuition congruence.
Qed.



(* ================================================================== *)
(** ** The classifier *)

(** *** Finite values *)

Lemma is_finite_inv x : is_finite x -> exists r, x = Fin r.
Proof. destruct x; cbn; try tauto; eauto. Qed.

Lemma fltb_Fin a b : fltb (Fin a) (Fin b) = true <-> a < b.
Proof.
  cbn; destruct (Rlt_dec a b); split; auto; discriminate.
Qed.

Lemma fltb_Fin_false a b : fltb (Fin a) (Fin b) = false <-> b <= a.
Proof.
  cbn; destruct (Rlt_dec a b); split; auto; try discriminate; lra.
Qed.

Lemma feqb_Fin a b : feqb (Fin a) (Fin b) = true <-> a = b.
Proof.
  cbn; destruct (Req_dec_T a b); split; auto; discriminate.
Qed.

Lemma np_less_Fin a b : np_less (Fin a) (Fin b) = true <-> a < b.
Proof. unfold np_less; cbn [isna andb]; rewrite orb_false_r; apply fltb_Fin. Qed.

Lemma dropna_finite (x : Series) : Forall is_finite x -> dropna x = x.
Proof.
  unfold dropna; induction 1 as [|v x Hv _ IH]; [reflexivity|].
  cbn; destruct v; cbn in *; try tauto; now rewrite IH.
Qed.

(** *** The two sorts *)

Lemma insert_asc_perm x l : Permutation (insert_asc x l) (x :: l).
Proof.
  induction l as [|y l IH]; cbn; [reflexivity|].
  destruct (fltb y x); [|reflexivity].
  rewrite IH; apply perm_swap.
Qed.

Lemma sort_asc_perm l : Permutation (sort_asc l) l.
Proof.
  induction l as [|x l IH]; cbn; [reflexivity|].
  rewrite insert_asc_perm; now constructor.
Qed.

Lemma sort_asc_finite l : Forall is_finite l -> Forall is_finite (sort_asc l).
Proof.
  intros H; eapply Permutation_Forall; [|exact H].
  symmetry; apply sort_asc_perm.
Qed.

Lemma insert_asc_sorted x l :
  is_finite x -> Forall is_finite l ->
  StronglySorted float_le l -> StronglySorted float_le (insert_asc x l).
Proof.
  intros Hx Hl Hs; induction Hs as [|y l Hs IH Hy]; cbn.
  - repeat constructor.
  - apply Forall_cons_iff in Hl as (Hfy & Hl).
    destruct (is_finite_inv _ Hx) as (a & ->),
             (is_finite_inv _ Hfy) as (b & ->).
    destruct (fltb (Fin b) (Fin a)) eqn:E.
    + constructor; [now apply IH|].
      eapply Permutation_Forall; [symmetry; apply insert_asc_perm|].
      constructor; [|assumption].
      apply fltb_Fin in E; unfold float_le; apply fltb_Fin_false; lra.
    + constructor; [now constructor|].
      apply fltb_Fin_false in E.
      constructor; [unfold float_le; apply fltb_Fin_false; lra|].
      rewrite Forall_forall in Hy, Hl |- *; intros z Hz.
      specialize (Hy z Hz); destruct (is_finite_inv _ (Hl z Hz)) as (c & ->).
      unfold float_le in *; apply fltb_Fin_false in Hy.
      apply fltb_Fin_false; lra.
Qed.

Lemma sort_asc_sorted l :
  Forall is_finite l -> StronglySorted float_le (sort_asc l).
Proof.
  induction 1 as [|x l Hx Hl IH]; cbn; [constructor|].
  apply insert_asc_sorted; auto using sort_asc_finite.
Qed.

Section SortValues.

Context {A : Type}.
Variable metric : A -> float.

Lemma insert_desc_perm a l : Permutation (insert_desc metric a l) (a :: l).
Proof.
  induction l as [|b l IH]; cbn; [reflexivity|].
  destruct (goes_before metric a b); [reflexivity|].
  rewrite IH; apply perm_swap.
Qed.

Lemma sort_values_perm df : Permutation (sort_values metric df) df.
Proof.
  induction df as [|a df IH]; cbn; [reflexivity|].
  rewrite insert_desc_perm; now constructor.
Qed.

Lemma sort_values_length df : length (sort_values metric df) = length df.
Proof. apply Permutation_length, sort_values_perm. Qed.

Lemma goes_before_finite a b x y :
  metric a = Fin x -> metric b = Fin y ->
  goes_before metric a b = true <-> y <= x.
Proof.
  intros Ha Hb; unfold goes_before; rewrite Ha, Hb; cbn [isna].
  rewrite negb_true_iff; apply fltb_Fin_false.
Qed.

Lemma insert_desc_sorted a l :
  is_finite (metric a) -> Forall (fun b => is_finite (metric b)) l ->
  StronglySorted (descending metric) l ->
  StronglySorted (descending metric) (insert_desc metric a l).
Proof.
  intros Ha Hl Hs; induction Hs as [|b l Hs IH Hb]; cbn.
  - repeat constructor.
  - apply Forall_cons_iff in Hl as (Hfb & Hl).
    destruct (is_finite_inv _ Ha) as (x & Ex),
             (is_finite_inv _ Hfb) as (y & Ey).
    destruct (goes_before metric a b) eqn:E.
    + apply (goes_before_finite a b x y Ex Ey) in E.
      constructor; [now constructor|].
      constructor.
      * unfold descending, float_le; rewrite Ex, Ey.
        apply fltb_Fin_false; lra.
      * rewrite Forall_forall in Hb, Hl |- *; intros c Hc.
        specialize (Hb c Hc).
        destruct (is_finite_inv _ (Hl c Hc)) as (z & Ez).
        unfold descending, float_le in *; rewrite Ex, Ey, Ez in *.
        apply fltb_Fin_false in Hb; apply fltb_Fin_false; lra.
    + assert (Hxy : x < y).
      { destruct (Rlt_dec x y) as [H|H]; [exact H|].
        assert (goes_before metric a b = true)
          by (apply (goes_before_finite a b x y Ex Ey); lra).
        congruence. }
      constructor; [now apply IH|].
      eapply Permutation_Forall; [symmetry; apply insert_desc_perm|].
      constructor; [|assumption].
      unfold descending, float_le; rewrite Ex, Ey.
      apply fltb_Fin_false; lra.
Qed.

Lemma sort_values_sorted df :
  Forall (fun a => is_finite (metric a)) df ->
  StronglySorted (descending metric) (sort_values metric df).
Proof.
  induction 1 as [|a df Ha Hdf IH]; cbn; [constructor|].
  apply insert_desc_sorted; auto.
  eapply Permutation_Forall; [symmetry; apply sort_values_perm|exact Hdf].
Qed.

End SortValues.

(** *** Quantiles of sorted finite values *)

Lemma finite_list l : Forall is_finite l -> exists rs, l = map Fin rs.
Proof.
  induction 1 as [|x l Hx _ (rs & ->)]; [now exists []|].
  destruct (is_finite_inv _ Hx) as (r & ->); now exists (r :: rs).
Qed.

Lemma sorted_map_Fin rs :
  StronglySorted float_le (map Fin rs) -> StronglySorted Rle rs.
Proof.
  induction rs as [|a rs IH]; cbn; intros H; [constructor|].
  inversion H as [|? ? Hs Ha]; subst.
  constructor; [now apply IH|].
  rewrite Forall_forall in Ha |- *; intros b Hb.
  specialize (Ha (Fin b) (in_map Fin _ _ Hb)).
  now apply fltb_Fin_false in Ha.
Qed.

Lemma nth_map_Fin rs i :
  (i < length rs)%nat -> nth i (map Fin rs) NaN = Fin (nth i rs 0).
Proof.
  intros Hi; rewrite (nth_indep _ NaN (Fin 0)) by now rewrite length_map.
  apply (map_nth Fin).
Qed.

Lemma sorted_nth_le rs i j :
  StronglySorted Rle rs -> (i <= j < length rs)%nat ->
  nth i rs 0 <= nth j rs 0.
Proof.
  intros Hs; revert i j; induction Hs as [|a rs Hs IH Ha]; intros i j Hij.
  - cbn in Hij; lia.
  - destruct i as [|i], j as [|j]; cbn in *; try lia; try lra.
    + rewrite Forall_forall in Ha; apply Ha, nth_In; lia.
    + apply IH; lia.
Qed.

(** The value of [lerp] on real numbers: both branches compute
    [a + (b - a) * t]. *)
Lemma lerp_Fin a b num den :
  exists v, lerp (Fin a) (Fin b) num den = Fin v /\
            v = a + (b - a) * (IZR (Z.of_nat num) / IZR (Z.of_nat den)).
Proof.
  unfold lerp; destruct (den <=? 2 * num)%nat; cbn;
    eexists; (split; [reflexivity|ring]).
Qed.

(** The quantile of level [k / q] of [n] sorted real numbers: the
    interpolation between the entries around index [(n - 1) * k / q]. *)
Lemma quantile_Fin rs k q :
  rs <> [] -> (0 < q)%nat -> (k <= q)%nat ->
  let h := ((length rs - 1) * k)%nat in
  let previous := (h / q)%nat in
  let next := Nat.min (previous + 1) (length rs - 1) in
  (previous <= next < length rs)%nat /\
  exists v,
    quantile (map Fin rs) k q = Fin v /\
    v = nth previous rs 0
        + (nth next rs 0 - nth previous rs 0)
          * (IZR (Z.of_nat (h mod q)) / IZR (Z.of_nat q)).
Proof.
  intros Hne Hq Hk h previous next.
  assert (Hn : (0 < length rs)%nat) by (destruct rs; [congruence|cbn; lia]).
  assert (Hp : (previous <= length rs - 1)%nat).
  { unfold previous, h; apply Nat.Div0.div_le_upper_bound; nia. }
  split; [unfold next; lia|].
  unfold quantile.
  destruct (map Fin rs) eqn:E; [destruct rs; [congruence|discriminate]|].
  rewrite <- E, length_map.
  fold h; fold previous; fold next.
  rewrite !nth_map_Fin by (unfold next; lia).
  apply lerp_Fin.
Qed.

(** Quantiles of sorted values grow with the level. *)
Lemma quantile_monotone rs k1 k2 q v1 v2 :
  rs <> [] -> StronglySorted Rle rs ->
  (0 < q)%nat -> (k1 <= k2)%nat -> (k2 <= q)%nat ->
  quantile (map Fin rs) k1 q = Fin v1 ->
  quantile (map Fin rs) k2 q = Fin v2 ->
  v1 <= v2.
Proof.
  intros Hne Hs Hq H12 H2 E1 E2.
  destruct (quantile_Fin rs k1 q Hne Hq ltac:(lia)) as (Hb1 & w1 & F1 & V1).
  destruct (quantile_Fin rs k2 q Hne Hq H2) as (Hb2 & w2 & F2 & V2).
  rewrite F1 in E1; rewrite F2 in E2.
  injection E1 as <-; injection E2 as <-.
  set (m := (length rs - 1)%nat) in *.
  set (p1 := (m * k1 / q)%nat) in *; set (p2 := (m * k2 / q)%nat) in *.
  set (n1 := Nat.min (p1 + 1) m) in *; set (n2 := Nat.min (p2 + 1) m) in *.
  set (r1 := ((m * k1) mod q)%nat) in *; set (r2 := ((m * k2) mod q)%nat) in *.
  assert (Hq' : 0 < IZR (Z.of_nat q)) by (apply IZR_lt; lia).
  assert (Hr1 : (r1 < q)%nat) by (apply Nat.mod_upper_bound; lia).
  assert (Hr2 : (r2 < q)%nat) by (apply Nat.mod_upper_bound; lia).
  assert (Ht : forall r, (r < q)%nat ->
                0 <= IZR (Z.of_nat r) / IZR (Z.of_nat q) <= 1).
  { intros r Hr.
    assert (0 <= IZR (Z.of_nat r)) by (apply IZR_le; lia).
    assert (IZR (Z.of_nat r) <= IZR (Z.of_nat q)) by (apply IZR_le; lia).
    split.
    - apply Rmult_le_pos; [assumption|left; now apply Rinv_0_lt_compat].
    - apply Rmult_le_reg_r with (IZR (Z.of_nat q)); [assumption|].
      unfold Rdiv; rewrite Rmult_assoc, Rinv_l by lra; lra. }
  pose proof (Ht r1 Hr1) as T1; pose proof (Ht r2 Hr2) as T2.
  set (t1 := IZR (Z.of_nat r1) / IZR (Z.of_nat q)) in *.
  set (t2 := IZR (Z.of_nat r2) / IZR (Z.of_nat q)) in *.
  assert (A1 : nth p1 rs 0 <= nth n1 rs 0) by (apply sorted_nth_le; [assumption|lia]).
  assert (A2 : nth p2 rs 0 <= nth n2 rs 0) by (apply sorted_nth_le; [assumption|lia]).
  assert (Hmk : (m * k1 <= m * k2)%nat) by nia.
  assert (Hp12 : (p1 <= p2)%nat)
    by (unfold p1, p2; apply Nat.Div0.div_le_mono; assumption).
  destruct (Nat.eq_dec p1 p2) as [Heq|Hneq].
  - (* the same pair of neighbours: the weight grows *)
    assert (Hr12 : (r1 <= r2)%nat).
    { pose proof (Nat.div_mod_eq (m * k1) q) as D1.
      pose proof (Nat.div_mod_eq (m * k2) q) as D2.
      fold p1 r1 in D1; fold p2 r2 in D2. nia. }
    assert (Ht12 : t1 <= t2).
    { unfold t1, t2, Rdiv; apply Rmult_le_compat_r.
      - left; now apply Rinv_0_lt_compat.
      - apply IZR_le; lia. }
    assert (n1 = n2) by (unfold n1, n2; now rewrite Heq).
    rewrite V1, V2, <- H, <- Heq. nra.
  - (* the first pair lies before the second *)
    assert (A3 : nth n1 rs 0 <= nth p2 rs 0)
      by (apply sorted_nth_le; [assumption|lia]).
    rewrite V1, V2. nra.
Qed.

(** Level zero is the least value and level one the greatest. *)
Lemma quantile_level_zero rs q :
  rs <> [] -> (0 < q)%nat -> quantile (map Fin rs) 0 q = Fin (nth 0 rs 0).
Proof.
  intros Hne Hq.
  destruct (quantile_Fin rs 0 q Hne Hq ltac:(lia)) as (_ & v & -> & ->).
  rewrite Nat.mul_0_r, Nat.Div0.div_0_l, Nat.Div0.mod_0_l.
  f_equal; cbn [Z.of_nat]; unfold Rdiv; ring.
Qed.

Lemma quantile_level_one rs q :
  rs <> [] -> (0 < q)%nat ->
  quantile (map Fin rs) q q = Fin (nth (length rs - 1) rs 0).
Proof.
  intros Hne Hq.
  destruct (quantile_Fin rs q q Hne Hq ltac:(lia)) as (_ & v & -> & ->).
  rewrite Nat.div_mul, Nat.Div0.mod_mul by lia.
  replace (Nat.min (length rs - 1 + 1) (length rs - 1))
    with (length rs - 1)%nat by lia.
  f_equal; ring.
Qed.

(** *** The bin edges *)

Lemma sorted_perm_eq (l1 l2 : list R) :
  StronglySorted Rle l1 -> StronglySorted Rle l2 -> Permutation l1 l2 ->
  l1 = l2.
Proof.
  intros H1; revert l2; induction H1 as [|a t1 Hs1 IH Ha]; intros l2 H2 HP.
  - now apply Permutation_nil in HP.
  - destruct H2 as [|b t2 Hs2 Hb].
    + symmetry in HP; now apply Permutation_nil in HP.
    + assert (Hab : a = b).
      { rewrite Forall_forall in Ha, Hb.
        assert (In a (b :: t2)) as [->|Hin]
          by (eapply Permutation_in; [exact HP|now left]); [reflexivity|].
        assert (In b (a :: t1)) as [->|Hin']
          by (eapply Permutation_in; [symmetry; exact HP|now left]);
          [reflexivity|].
        specialize (Ha b Hin'); specialize (Hb a Hin); lra. }
      subst b; f_equal; apply IH; [assumption|].
      eapply Permutation_cons_inv; exact HP.
Qed.

Lemma map_Fin_inj l1 l2 : map Fin l1 = map Fin l2 -> l1 = l2.
Proof.
  revert l2; induction l1 as [|a l1 IH]; intros [|b l2]; cbn;
    try discriminate; [reflexivity|].
  intros [= -> H]; f_equal; now apply IH.
Qed.

(** The sorted values of a finite column: real numbers in ascending
    order, a permutation of the column. *)
Lemma sort_asc_reals x :
  Forall is_finite x ->
  exists rs, sort_asc (dropna x) = map Fin rs /\
             StronglySorted Rle rs /\ Permutation (map Fin rs) x.
Proof.
  intros Hx; rewrite dropna_finite by assumption.
  destruct (finite_list _ (sort_asc_finite _ Hx)) as (rs & E).
  exists rs; rewrite E; repeat split.
  - apply sorted_map_Fin; rewrite <- E; now apply sort_asc_sorted.
  - rewrite <- E; apply sort_asc_perm.
Qed.

(** Two finite columns with the same values in another order have the
    same sorted values. *)
Lemma sort_asc_dropna_perm x y :
  Forall is_finite x -> Permutation x y ->
  sort_asc (dropna x) = sort_asc (dropna y).
Proof.
  intros Hx HP.
  assert (Hy : Forall is_finite y) by (eapply Permutation_Forall; eassumption).
  destruct (sort_asc_reals x Hx) as (rx & Ex & Sx & Px).
  destruct (sort_asc_reals y Hy) as (ry & Ey & Sy & Py).
  rewrite Ex, Ey; f_equal; apply sorted_perm_eq; try assumption.
  assert (HP' : Permutation (map Fin rx) (map Fin ry)).
  { rewrite Px, Py; exact HP. }
  apply Permutation_map_inv in HP' as (l3 & E3 & P3).
  apply map_Fin_inj in E3; subst l3.
  now symmetry.
Qed.

Lemma quantile_edges_perm x y q :
  Forall is_finite x -> Permutation x y ->
  quantile_edges x q = quantile_edges y q.
Proof.
  intros Hx HP; unfold quantile_edges.
  now rewrite (sort_asc_dropna_perm x y Hx HP).
Qed.

(** The four edges of a non-empty finite column: real numbers in
    ascending order, the first below every value and the last above. *)
Lemma quantile_edges_finite x :
  Forall is_finite x -> x <> [] ->
  exists e0 e1 e2 e3,
    quantile_edges x 3 = [Fin e0; Fin e1; Fin e2; Fin e3] /\
    e0 <= e1 /\ e1 <= e2 /\ e2 <= e3 /\
    forall v, In (Fin v) x -> e0 <= v <= e3.
Proof.
  intros Hx Hne.
  destruct (sort_asc_reals x Hx) as (rs & E & Hs & HP).
  assert (Hrs : rs <> []).
  { intros ->; cbn in HP; apply Permutation_nil in HP; congruence. }
  unfold quantile_edges; rewrite E; cbn [seq Nat.add map].
  destruct (quantile_Fin rs 1 3 Hrs) as (_ & e1 & E1 & _); [lia|lia|].
  destruct (quantile_Fin rs 2 3 Hrs) as (_ & e2 & E2 & _); [lia|lia|].
  pose proof (quantile_level_zero rs 3 Hrs ltac:(lia)) as E0.
  pose proof (quantile_level_one rs 3 Hrs ltac:(lia)) as E3.
  exists (nth 0 rs 0), e1, e2, (nth (length rs - 1) rs 0).
  rewrite E0, E1, E2, E3; split; [reflexivity|].
  assert (M : forall k1 k2 v1 v2, (k1 <= k2 <= 3)%nat ->
               quantile (map Fin rs) k1 3 = Fin v1 ->
               quantile (map Fin rs) k2 3 = Fin v2 -> v1 <= v2).
  { intros k1 k2 v1 v2 Hk; apply quantile_monotone; auto; lia. }
  repeat split.
  - exact (M 0%nat 1%nat _ _ ltac:(lia) E0 E1).
  - exact (M 1%nat 2%nat _ _ ltac:(lia) E1 E2).
  - exact (M 2%nat 3%nat _ _ ltac:(lia) E2 E3).
  - assert (Hin : In v rs).
    { assert (H' : In (Fin v) (map Fin rs))
        by (eapply Permutation_in; [symmetry; exact HP|exact H]).
      apply in_map_iff in H' as (w & [= ->] & Hw); exact Hw. }
    destruct (In_nth _ _ 0 Hin) as (i & Hi & <-).
    apply sorted_nth_le; [assumption|lia].
  - assert (Hin : In v rs).
    { assert (H' : In (Fin v) (map Fin rs))
        by (eapply Permutation_in; [symmetry; exact HP|exact H]).
      apply in_map_iff in H' as (w & [= ->] & Hw); exact Hw. }
    destruct (In_nth _ _ 0 Hin) as (i & Hi & <-).
    apply sorted_nth_le; [assumption|lia].
Qed.

(** Four ascending real edges have no duplicate exactly when they are
    strictly ascending. *)
Lemma has_duplicates_four e0 e1 e2 e3 :
  e0 <= e1 -> e1 <= e2 -> e2 <= e3 ->
  has_duplicates [Fin e0; Fin e1; Fin e2; Fin e3] = false <->
  e0 < e1 /\ e1 < e2 /\ e2 < e3.
Proof.
  intros H01 H12 H23; unfold has_duplicates, existsb, same_edge.
  cbn [isna andb orb feqb].
  destruct (Req_dec_T e0 e1), (Req_dec_T e0 e2), (Req_dec_T e0 e3),
    (Req_dec_T e1 e2), (Req_dec_T e1 e3), (Req_dec_T e2 e3);
    cbn; split; intros H; try discriminate; try lra; try reflexivity.
Qed.

(** *** The label of a value *)

Lemma searchsorted_left_four e0 e1 e2 e3 v :
  searchsorted_left [e0; e1; e2; e3] v
  = (if np_less e2 v then (if np_less e3 v then 4 else 3)
     else if np_less e1 v then 2
     else if np_less e0 v then 1 else 0)%nat.
Proof. reflexivity. Qed.

(** The tier of a value by the two inner edges. *)
Lemma label_of_four e0 e1 e2 e3 v :
  e0 <= e1 -> e1 <= e2 -> e0 <= v <= e3 ->
  label_of (rev categories) [Fin e0; Fin e1; Fin e2; Fin e3] (Fin v)
  = Some (tier_by_cuts e1 e2 v).
Proof.
  intros H01 H12 Hv; unfold label_of, bin_id, tier_by_cuts.
  cbn [hd isna orb length]; rewrite searchsorted_left_four.
  destruct (feqb (Fin v) (Fin e0)) eqn:E0.
  - apply feqb_Fin in E0; subst v; cbn.
    destruct (Rlt_dec e2 e0); [lra|].
    destruct (Rlt_dec e1 e0); [lra|reflexivity].
  - assert (Hne : v <> e0).
    { intros ->; assert (feqb (Fin e0) (Fin e0) = true)
        by now apply feqb_Fin. congruence. }
    destruct (np_less (Fin e2) (Fin v)) eqn:L2.
    + apply np_less_Fin in L2.
      destruct (np_less (Fin e3) (Fin v)) eqn:L3;
        [apply np_less_Fin in L3; lra|].
      cbn; destruct (Rlt_dec e2 v); [reflexivity|lra].
    + destruct (Rlt_dec e2 v) as [H|H];
        [apply np_less_Fin in H; congruence|].
      destruct (np_less (Fin e1) (Fin v)) eqn:L1.
      * apply np_less_Fin in L1; cbn.
        destruct (Rlt_dec e1 v); [reflexivity|lra].
      * destruct (Rlt_dec e1 v) as [H1|H1];
          [apply np_less_Fin in H1; congruence|].
        destruct (np_less (Fin e0) (Fin v)) eqn:L0; [reflexivity|].
        exfalso.
        assert (e0 < v) by lra.
        apply np_less_Fin in H0; congruence.
Qed.

(** *** The classifier on finite metrics *)

Lemma combine_map_self {A B : Type} (f : A -> B) (l : list A) :
  combine l (map f l) = map (fun a => (a, f a)) l.
Proof. induction l as [|a l IH]; cbn; [reflexivity|now rewrite IH]. Qed.

Section ClassifierFacts.

Context {A : Type}.
Variable metric : A -> float.

Lemma finite_metric_map df : finite_metric metric df -> Forall is_finite (map metric df).
Proof. unfold finite_metric; now rewrite Forall_map. Qed.

(** What the classifier does with a non-empty population of finite
    metrics: its edges are four ascending real numbers; it raises when
    two of them coincide and otherwise returns the sorted rows, each
    with the tier of its metric by the two inner edges. *)
Lemma classify_players_finite (df : list A) :
  finite_metric metric df -> df <> [] ->
  exists e0 e1 e2 e3,
    quantile_edges (map metric df) 3 = [Fin e0; Fin e1; Fin e2; Fin e3] /\
    e0 <= e1 /\ e1 <= e2 /\ e2 <= e3 /\
    classify_players metric df
    = if has_duplicates [Fin e0; Fin e1; Fin e2; Fin e3]
      then Raises (ValueError "Bin edges must be unique")
      else Returns (map (fun a => (a, tier_of_float e1 e2 (metric a)))
                        (sort_values metric df)).
Proof.
  intros Hfin Hne.
  pose proof (finite_metric_map df Hfin) as Hx.
  assert (Hxne : map metric df <> []) by (destruct df; [congruence|discriminate]).
  destruct (quantile_edges_finite _ Hx Hxne)
    as (e0 & e1 & e2 & e3 & E & H01 & H12 & H23 & Hb).
  exists e0, e1, e2, e3; repeat split; try assumption.
  pose proof (sort_values_perm metric df) as HP.
  assert (HPm : Permutation (map metric (sort_values metric df)) (map metric df))
    by now apply Permutation_map.
  assert (Hxs : Forall is_finite (map metric (sort_values metric df))).
  { eapply Permutation_Forall; [symmetry; exact HPm|exact Hx]. }
  unfold classify_players, qcut.
  rewrite (quantile_edges_perm _ _ 3 Hxs HPm), E.
  destruct (has_duplicates _); [reflexivity|].
  cbn [length rev categories app Nat.eqb Nat.sub negb andb].
  rewrite map_map, combine_map_self; f_equal.
  apply map_ext_in; intros a Ha; f_equal.
  assert (Hin : In a df) by (eapply Permutation_in; eassumption).
  assert (Hf : is_finite (metric a)).
  { unfold finite_metric in Hfin; rewrite Forall_forall in Hfin; auto. }
  destruct (is_finite_inv _ Hf) as (v & Ev); rewrite Ev.
  cbn [tier_of_float].
  change [All_Star_Caliber; All_NBA_Caliber; MVP_Caliber]
    with (rev categories).
  apply label_of_four; try assumption.
  apply Hb; rewrite <- Ev; now apply in_map.
Qed.

End ClassifierFacts.

(** *** Evaluation of the classifier on sample data *)

Ltac classify_eval :=
  unfold classify_players, qcut, quantile_edges, sort_values, sort_asc,
    dropna, goes_before, quantile, lerp, has_duplicates, same_edge,
    label_of, bin_id, spec_cut, searchsorted_left;
  repeat (progress (cbn; unfold np_less; cbn; decide_reals)).

Lemma classify_players_empty {A : Type} (metric : A -> float) :
  classify_players metric [] = Raises (ValueError "Bin edges must be unique").
Proof. reflexivity. Qed.

Lemma quantile_edges_empty : quantile_edges [] 3 = [NaN; NaN; NaN; NaN].
Proof. reflexivity. Qed.

(** ** The claims on the classifier *)

(** C5, at a population of three records of which two are tied: the
    classifier raises and labels no record. *)
Lemma classify_players_raises_on_ties :
  (3 <= length scored_tied)%nat /\
  classify_players snd scored_tied
  = Raises (ValueError "Bin edges must be unique").
Proof. split; [cbn; lia|]. classify_eval; reflexivity. Qed.

(** C5 as amended: for every scored population of real metrics whose
    four bin edges, the quantiles of levels 0, 1/3, 2/3 and 1, are
    pairwise different, the classifier returns the population in another
    order with exactly one of the three tier labels on every record; when
    two edges coincide it raises [ValueError]. *)
Theorem classify_players_partition {A : Type} (metric : A -> float)
    (df : list A) :
  finite_metric metric df ->
  if has_duplicates (quantile_edges (map metric df) 3)
  then classify_players metric df
       = Raises (ValueError "Bin edges must be unique")
  else exists out,
      classify_players metric df = Returns out /\
      Permutation (map fst out) df /\
      Forall (fun row => exists c, snd row = Some c /\ In c categories) out.
Proof.
  intros Hfin.
  destruct df as [|a0 df0]; [reflexivity|].
  set (df := a0 :: df0) in *.
  destruct (classify_players_finite metric df Hfin ltac:(discriminate))
    as (e0 & e1 & e2 & e3 & E & _ & _ & _ & Hc).
  rewrite E, Hc.
  destruct (has_duplicates _); [reflexivity|].
  eexists; split; [reflexivity|split].
  - rewrite map_map; cbn [fst]; rewrite map_id; apply sort_values_perm.
  - rewrite Forall_map, Forall_forall; intros a Ha; cbn [snd].
    assert (Hin : In a df)
      by (eapply Permutation_in; [apply sort_values_perm|exact Ha]).
    unfold finite_metric in Hfin; rewrite Forall_forall in Hfin.
    destruct (is_finite_inv _ (Hfin a Hin)) as (v & ->).
    eexists; split; [reflexivity|].
    unfold tier_by_cuts, categories.
    destruct (Rlt_dec e2 v); [|destruct (Rlt_dec e1 v)]; cbn; tauto.
Qed.

Lemma scored_four_finite : finite_metric snd scored_four.
Proof. repeat constructor. Qed.

Lemma scored_four_edges :
  quantile_edges (map snd scored_four) 3 = [Fin 0; Fin 1; Fin 2; Fin 3].
Proof.
  unfold quantile_edges, sort_asc, dropna, quantile, lerp.
  repeat (progress (cbn; decide_reals)).
  repeat (f_equal; try lra).
Qed.

Lemma scored_four_no_duplicates :
  has_duplicates (quantile_edges (map snd scored_four) 3) = false.
Proof.
  rewrite scored_four_edges; unfold has_duplicates, same_edge.
  cbn; decide_reals; reflexivity.
Qed.

Lemma classify_players_partition_witness :
  exists out,
    classify_players snd scored_four = Returns out /\
    Permutation (map fst out) scored_four /\
    Forall (fun row => exists c, snd row = Some c /\ In c categories) out.
Proof.
  pose proof (classify_players_partition snd scored_four scored_four_finite)
    as H.
  rewrite scored_four_no_duplicates in H; exact H.
Defined.

(** C6, at three records tied at 2 and one record at 7: the upper cut
    is 2, as a quantile of level 2/3, and 2.05, as the 67th percentile;
    the record at 7 is above both and gets no tier, because the
    classifier raises. *)
Lemma classify_players_raises_above_cut :
  In ("P4"%string, Fin 7) scored_ties /\
  quantile (sort_asc (dropna (map snd scored_ties))) 2 3 = Fin 2 /\
  spec_cut snd scored_ties 67 = Fin 2.05 /\
  classify_players snd scored_ties
  = Raises (ValueError "Bin edges must be unique").
Proof.
  split; [cbn; tauto|].
  split; [|split].
  - unfold sort_asc, dropna, quantile, lerp.
    repeat (progress (cbn; decide_reals)); f_equal; lra.
  - unfold spec_cut, sort_asc, dropna, quantile, lerp.
    repeat (progress (cbn; decide_reals)); f_equal; lra.
  - classify_eval; reflexivity.
Qed.

(** C6 as amended: for every scored population of real metrics whose
    four bin edges are pairwise different, the classifier returns the
    rows sorted by descending metric, and with the quantiles of levels
    1/3 and 2/3 of the metric (linear interpolation) as lower and upper
    cut, a record above the upper cut is MVP Caliber, a record between
    the two cuts is All-NBA Caliber, and a record below the lower cut is
    All-Star Caliber. *)
Theorem classify_players_tiers {A : Type} (metric : A -> float)
    (df : list A) :
  finite_metric metric df ->
  has_duplicates (quantile_edges (map metric df) 3) = false ->
  exists (lower upper : R) (out : list (A * option Category)),
    quantile (sort_asc (dropna (map metric df))) 1 3 = Fin lower /\
    quantile (sort_asc (dropna (map metric df))) 2 3 = Fin upper /\
    lower < upper /\
    classify_players metric df = Returns out /\
    map fst out = sort_values metric df /\
    StronglySorted (descending metric) (map fst out) /\
    forall a c, In (a, c) out ->
      exists v, metric a = Fin v /\
        (upper < v -> c = Some MVP_Caliber) /\
        (lower < v < upper -> c = Some All_NBA_Caliber) /\
        (v < lower -> c = Some All_Star_Caliber).
Proof.
  intros Hfin Hnd.
  destruct df as [|a0 df0]; [discriminate Hnd|].
  set (df := a0 :: df0) in *.
  destruct (classify_players_finite metric df Hfin ltac:(discriminate))
    as (e0 & e1 & e2 & e3 & E & H01 & H12 & H23 & Hc).
  rewrite E in Hnd; rewrite Hnd in Hc.
  apply has_duplicates_four in Hnd as (_ & Hlt & _); try assumption.
  unfold quantile_edges in E; cbn [seq Nat.add map] in E.
  injection E as _ E1 E2 _.
  exists e1, e2; eexists.
  do 4 (split; [eassumption|]).
  split; [rewrite map_map; cbn [fst]; apply map_id|].
  split.
  - rewrite map_map; cbn [fst]; rewrite map_id.
    now apply sort_values_sorted.
  - intros a c Hin.
    apply in_map_iff in Hin as (a' & [= -> <-] & Ha).
    assert (Hin : In a df)
      by (eapply Permutation_in; [apply sort_values_perm|exact Ha]).
    unfold finite_metric in Hfin; rewrite Forall_forall in Hfin.
    destruct (is_finite_inv _ (Hfin a Hin)) as (v & Ev).
    exists v; rewrite Ev; cbn [tier_of_float]; unfold tier_by_cuts.
    split; [reflexivity|].
    destruct (Rlt_dec e2 v), (Rlt_dec e1 v);
      repeat split; intros; try reflexivity; exfalso; lra.
Qed.

Lemma classify_players_tiers_witness :
  exists (lower upper : R) (out : list ((string * float) * option Category)),
    lower < upper /\
    classify_players snd scored_four = Returns out /\
    forall a c, In (a, c) out ->
      exists v, snd a = Fin v /\
        (upper < v -> c = Some MVP_Caliber) /\
        (lower < v < upper -> c = Some All_NBA_Caliber) /\
        (v < lower -> c = Some All_Star_Caliber).
Proof.
  destruct (classify_players_tiers snd scored_four scored_four_finite
              scored_four_no_duplicates)
    as (lower & upper & out & _ & _ & Hlt & Hc & _ & _ & Hl).
  exists lower, upper, out; auto.
Defined.

(** C7, at a population of two records: the classifier raises nothing
    and returns the two records with a tier each. *)
Lemma classify_players_two_returns :
  (length scored_two < 3)%nat /\
  classify_players snd scored_two
  = Returns [(("P2", Fin 2), Some MVP_Caliber);
             (("P1", Fin 1), Some All_Star_Caliber)]%string.
Proof. split; [cbn; lia|]. classify_eval; reflexivity. Qed.

(** C7 as amended: the classifier does not check the size of the
    population.  For a population of less than three records with real
    metrics, it returns when there are two records of different metric,
    the higher as MVP Caliber and the lower as All-Star Caliber, and it
    raises the [ValueError] of [pd.qcut] for duplicate bin edges in every
    other case. *)
Theorem classify_players_small {A : Type} (metric : A -> float)
    (df : list A) :
  finite_metric metric df -> (length df < 3)%nat ->
  classify_players metric df
  = match df with
    | [a; b] =>
        if feqb (metric a) (metric b)
        then Raises (ValueError "Bin edges must be unique")
        else if fltb (metric a) (metric b)
        then Returns [(b, Some MVP_Caliber); (a, Some All_Star_Caliber)]
        else Returns [(a, Some MVP_Caliber); (b, Some All_Star_Caliber)]
    | _ => Raises (ValueError "Bin edges must be unique")
    end.
Proof.
  intros Hfin Hlen.
  destruct df as [|a [|b [|c df]]]; [reflexivity| | |cbn in Hlen; lia].
  - apply Forall_cons_iff in Hfin as (Ha & _).
    destruct (is_finite_inv _ Ha) as (x & Ex).
    unfold classify_players, sort_values; cbn [fold_right insert_desc map].
    rewrite Ex; classify_eval; reflexivity.
  - apply Forall_cons_iff in Hfin as (Ha & Hfin).
    apply Forall_cons_iff in Hfin as (Hb & _).
    destruct (is_finite_inv _ Ha) as (x & Ex), (is_finite_inv _ Hb) as (y & Ey).
    unfold classify_players, sort_values; cbn [fold_right insert_desc].
    unfold goes_before; rewrite Ex, Ey; cbn [isna feqb fltb negb].
    destruct (Req_dec_T x y) as [->|Hne].
    + destruct (Rlt_dec y y); [lra|].
      cbn [negb insert_desc map]; rewrite ?Ex, ?Ey.
      classify_eval; reflexivity.
    + destruct (Rlt_dec x y) as [Hlt|Hge].
      * cbn [negb map]; rewrite ?Ex, ?Ey.
        classify_eval; reflexivity.
      * assert (y < x) by lra.
        cbn [negb map]; rewrite ?Ex, ?Ey.
        classify_eval; reflexivity.
Qed.

Lemma classify_players_small_witness :
  classify_players snd scored_two
  = Returns [(("P2", Fin 2), Some MVP_Caliber);
             (("P1", Fin 1), Some All_Star_Caliber)]%string.
Proof.
  assert (Hfin : finite_metric snd scored_two) by (repeat constructor).
  assert (Hlen : (length scored_two < 3)%nat) by (cbn; lia).
  rewrite (classify_players_small snd scored_two Hfin Hlen).
  cbn; decide_reals; reflexivity.
Defined.


(* ================================================================== *)
(** * Further properties of the scorers *)

(** ** Bounds of the weighted sums *)

Lemma spec_CEM_bounds (n : column -> float) :
  (forall col, In col features_cem -> in_unit_interval (n col)) ->
  exists c, spec_CEM n = Fin c /\ -0.10 <= c <= 1.00.
Proof.
  intros H; unfold spec_CEM.
  assert (H' : forall col, In col features_cem ->
                 exists x, n col = Fin x /\ 0 <= x <= 1) by exact H.
  destruct (H' c_ppg) as (x1 & -> & ?); [cbn; tauto|].
  destruct (H' c_rpg) as (x2 & -> & ?); [cbn; tauto|].
  destruct (H' c_apg) as (x3 & -> & ?); [cbn; tauto|].
  destruct (H' c_spg) as (x4 & -> & ?); [cbn; tauto|].
  destruct (H' c_bpg) as (x5 & -> & ?); [cbn; tauto|].
  destruct (H' c_to) as (x6 & -> & ?); [cbn; tauto|].
  destruct (H' c_fg) as (x7 & -> & ?); [cbn; tauto|].
  destruct (H' c_ft) as (x8 & -> & ?); [cbn; tauto|].
  cbn; eexists; split; [reflexivity|lra].
Qed.

Lemma spec_PERLike_bounds (n : column -> float) :
  (forall col, in_unit_interval (n col)) ->
  exists c, spec_PERLike n = Fin c /\ -0.10 <= c <= 1.12.
Proof.
  intros H; unfold spec_PERLike.
  destruct (H c_ppg) as (x1 & -> & ?), (H c_rpg) as (x2 & -> & ?),
    (H c_apg) as (x3 & -> & ?), (H c_spg) as (x4 & -> & ?),
    (H c_bpg) as (x5 & -> & ?), (H c_to) as (x6 & -> & ?),
    (H c_fg) as (x7 & -> & ?), (H c_ft) as (x8 & -> & ?),
    (H c_3p) as (x9 & -> & ?), (H c_2p) as (x10 & -> & ?).
  cbn; eexists; split; [reflexivity|lra].
Qed.

Lemma ln_games_nonneg (g : Z) : (1 <= g)%Z -> 0 <= ln (IZR g).
Proof.
  intros Hg.
  destruct (Z.eq_dec g 1) as [->|Hne]; [rewrite ln_1; lra|].
  left; rewrite <- ln_1; apply ln_increasing; [lra|].
  apply IZR_lt; lia.
Qed.

(** X2: with at least one game played the two scores of the evaluator
    are real numbers, whatever the reference population: the first
    between -0.10 and 1.00 times the logarithm of the games played, the
    second between -0.10 and 1.12 times that logarithm. *)
Theorem evaluator_scores_bounded (p : PlayerRecord) (df : DataFrame) :
  (1 <= games_played p)%Z ->
  let lg := ln (IZR (games_played p)) in
  exists x y,
    calculate_single_player_metrics p df = (Fin x, Fin y) /\
    -0.10 * lg <= x <= 1.00 * lg /\
    -0.10 * lg <= y <= 1.12 * lg.
Proof.
  intros Hg lg; rewrite calculate_single_player_metrics_eq.
  rewrite np_log_games by assumption.
  assert (H : forall col, in_unit_interval
                (guarded_normalize (pd_concat df p) col p)).
  { intros col; apply guarded_normalize_unit, in_pd_concat. }
  destruct (spec_CEM_bounds _ (fun col _ => H col)) as (c & -> & Hc).
  destruct (spec_PERLike_bounds _ H) as (c' & -> & Hc').
  pose proof (ln_games_nonneg _ Hg) as Hl; fold lg in Hl |- *.
  exists (c * lg), (c' * lg); split; [reflexivity|]. nra.
Qed.

Lemma evaluator_scores_bounded_witness :
  exists x y,
    calculate_single_player_metrics player_b [player_a] = (Fin x, Fin y) /\
    -0.10 * ln 82 <= x <= 1.00 * ln 82 /\
    -0.10 * ln 82 <= y <= 1.12 * ln 82.
Proof.
  apply (evaluator_scores_bounded player_b [player_a]); cbn; lia.
Defined.

(** X3: when no feature is constant over the population, the batch
    scorer gives every record with at least one game two real scores
    within the same bounds. *)
Theorem calculate_metrics_scores_bounded (df : DataFrame) (i : nat)
    (r : PlayerRecord) :
  nth_error df i = Some r ->
  (forall col, ~ degenerate df col) ->
  (1 <= games_played r)%Z ->
  let lg := ln (IZR (games_played r)) in
  exists x y,
    nth_error (Final_CEM (calculate_metrics df)) i = Some (Fin x) /\
    nth_error (MVPCEM (calculate_metrics df)) i = Some (Fin y) /\
    -0.10 * lg <= x <= 1.00 * lg /\
    -0.10 * lg <= y <= 1.12 * lg.
Proof.
  intros Hr Hreg Hg lg.
  destruct (calculate_metrics_rows df i r Hr) as (_ & _ & _ & HF & _ & HM).
  rewrite np_log_games in HF, HM by assumption.
  assert (H : forall col, in_unit_interval (batch_normalize df col r)).
  { intros col; apply batch_normalize_regular; [|apply Hreg].
    eapply nth_error_In; eassumption. }
  destruct (spec_CEM_bounds _ (fun col _ => H col)) as (c & Ec & Hc).
  destruct (spec_PERLike_bounds _ H) as (c' & Ec' & Hc').
  rewrite Ec in HF; rewrite Ec' in HM.
  pose proof (ln_games_nonneg _ Hg) as Hl; fold lg in Hl, HF, HM |- *.
  exists (c * lg), (c' * lg); repeat split; try assumption; nra.
Qed.

Lemma a_idle_regular col : ~ degenerate [player_a; player_idle] col.
Proof.
  destruct col; unfold degenerate, series_max, series_min, fmax2, fmin2;
    fl_eval; intros [= H]; lra.
Qed.

Lemma calculate_metrics_scores_bounded_witness :
  exists x y,
    nth_error (Final_CEM (calculate_metrics [player_a; player_idle])) 0
      = Some (Fin x) /\
    nth_error (MVPCEM (calculate_metrics [player_a; player_idle])) 0
      = Some (Fin y) /\
    -0.10 * ln 70 <= x <= 1.00 * ln 70 /\
    -0.10 * ln 70 <= y <= 1.12 * ln 70.
Proof.
  apply (calculate_metrics_scores_bounded [player_a; player_idle] 0 player_a).
  - reflexivity.
  - exact a_idle_regular.
  - cbn; lia.
Defined.

(** ** Which scores are real numbers *)

Lemma nth_error_degenerate_dec df i r col :
  nth_error df i = Some r -> {degenerate df col} + {~ degenerate df col}.
Proof.
  intros H; apply degenerate_dec; intros ->; destruct i; discriminate.
Qed.

(** X4: in a population a record's Final CEM of the batch scorer is NaN
    as soon as one of the eight features of the CEM is constant over the
    population, and its MVPCEM as soon as one of the ten features is;
    with at least one game played this is the only case in which these
    scores are not real numbers. *)
Theorem calculate_metrics_real_iff_regular (df : DataFrame) (i : nat)
    (r : PlayerRecord) :
  nth_error df i = Some r ->
  (1 <= games_played r)%Z ->
  ((exists x, nth_error (Final_CEM (calculate_metrics df)) i = Some (Fin x))
   <-> forall col, In col features_cem -> ~ degenerate df col) /\
  ((exists col, In col features_cem /\ degenerate df col) ->
   nth_error (Final_CEM (calculate_metrics df)) i = Some NaN) /\
  ((exists y, nth_error (MVPCEM (calculate_metrics df)) i = Some (Fin y))
   <-> forall col, ~ degenerate df col) /\
  ((exists col, degenerate df col) ->
   nth_error (MVPCEM (calculate_metrics df)) i = Some NaN).
Proof.
  intros Hr Hg.
  destruct (calculate_metrics_rows df i r Hr) as (_ & _ & _ & HF & _ & HM).
  rewrite np_log_games in HF, HM by assumption.
  assert (Hin : In r df) by (eapply nth_error_In; eassumption).
  assert (NF : forall col, In col features_cem -> degenerate df col ->
                 nth_error (Final_CEM (calculate_metrics df)) i = Some NaN).
  { intros col Hc Hd; rewrite HF.
    rewrite (spec_CEM_NaN _ col Hc) by now apply batch_normalize_degenerate.
    reflexivity. }
  assert (NM : forall col, degenerate df col ->
                 nth_error (MVPCEM (calculate_metrics df)) i = Some NaN).
  { intros col Hd; rewrite HM.
    rewrite (spec_PERLike_NaN _ col) by now apply batch_normalize_degenerate.
    reflexivity. }
  repeat split.
  - intros (x & Hx) col Hc Hd.
    rewrite (NF col Hc Hd) in Hx; discriminate.
  - intros Hreg.
    destruct (spec_CEM_bounds (fun col => batch_normalize df col r))
      as (c & Ec & _).
    { intros col Hc; apply batch_normalize_regular; auto. }
    rewrite HF, Ec; cbn; eauto.
  - intros (col & Hc & Hd); eauto.
  - intros (y & Hy) col Hd.
    rewrite (NM col Hd) in Hy; discriminate.
  - intros Hreg.
    destruct (spec_PERLike_bounds (fun col => batch_normalize df col r))
      as (c & Ec & _).
    { intros col; apply batch_normalize_regular; auto. }
    rewrite HM, Ec; cbn; eauto.
  - intros (col & Hd); eauto.
Qed.

Lemma calculate_metrics_real_iff_regular_witness :
  nth_error (Final_CEM (calculate_metrics [player_a; player_b])) 0 = Some NaN.
Proof.
  assert (Hg : (1 <= games_played player_a)%Z) by (cbn; lia).
  destruct (calculate_metrics_real_iff_regular [player_a; player_b] 0
              player_a eq_refl Hg) as (_ & H & _).
  apply H; exists c_bpg; split; [cbn; tauto|exact bpg_constant_a_b].
Defined.

(** ** One game played, and a population without spread *)

(** X5: a candidate with exactly one game played gets the scores
    (0, 0) from the evaluator, whatever its statistics and the reference
    population. *)
Theorem evaluator_one_game_zero (p : PlayerRecord) (df : DataFrame) :
  games_played p = 1%Z ->
  calculate_single_player_metrics p df = (Fin 0, Fin 0).
Proof.
  intros Hg; rewrite calculate_single_player_metrics_eq.
  rewrite np_log_games by lia.
  assert (H : forall col, in_unit_interval
                (guarded_normalize (pd_concat df p) col p)).
  { intros col; apply guarded_normalize_unit, in_pd_concat. }
  destruct (spec_CEM_bounds _ (fun col _ => H col)) as (c & -> & _).
  destruct (spec_PERLike_bounds _ H) as (c' & -> & _).
  rewrite Hg, ln_1; cbn; f_equal; f_equal; ring.
Qed.

Lemma evaluator_one_game_zero_witness :
  calculate_single_player_metrics (with_name "Rookie" rookie) [player_a]
  = (Fin 0, Fin 0).
Proof. apply evaluator_one_game_zero; reflexivity. Defined.

(** X6: when every feature is constant over the reference population
    with the candidate, as it is for an empty reference population, the
    evaluator gives a candidate with at least one game played the scores
    (0, 0). *)
Theorem evaluator_without_spread_zero (p : PlayerRecord) (df : DataFrame) :
  (1 <= games_played p)%Z ->
  ((forall col, degenerate (pd_concat df p) col) ->
   calculate_single_player_metrics p df = (Fin 0, Fin 0)) /\
  calculate_single_player_metrics p [] = (Fin 0, Fin 0).
Proof.
  intros Hg.
  assert (G : forall df', (forall col, degenerate (pd_concat df' p) col) ->
                calculate_single_player_metrics p df' = (Fin 0, Fin 0)).
  { intros df' Hd; rewrite calculate_single_player_metrics_eq.
    rewrite np_log_games by assumption.
    unfold spec_CEM, spec_PERLike.
    rewrite !guarded_normalize_degenerate
      by (try apply pd_concat_nonempty; apply Hd).
    cbn; f_equal; f_equal; ring. }
  split; [apply G|].
  apply G; intros col; apply single_record_degenerate.
Qed.

Lemma evaluator_without_spread_zero_witness :
  calculate_single_player_metrics player_a [] = (Fin 0, Fin 0).
Proof.
  assert (Hg : (1 <= games_played player_a)%Z) by (cbn; lia).
  exact (proj2 (evaluator_without_spread_zero player_a [player_b] Hg)).
Defined.

(** ** The ends of a normalized column *)

(** X7: over a population in which a feature is not constant, the batch
    scorer normalizes the least value of the feature to 0 and the
    greatest to 1, and each of the two is reached by a record. *)
Theorem normalize_column_ends (df : DataFrame) (col : column) :
  ~ degenerate df col -> df <> [] ->
  (forall i r, nth_error df i = Some r ->
     (Fin (raw col r) = series_min (getitem df col) ->
      nth_error (norm (calculate_metrics df) col) i = Some (Fin 0)) /\
     (Fin (raw col r) = series_max (getitem df col) ->
      nth_error (norm (calculate_metrics df) col) i = Some (Fin 1))) /\
  (exists i, nth_error (norm (calculate_metrics df) col) i = Some (Fin 0)) /\
  (exists j, nth_error (norm (calculate_metrics df) col) j = Some (Fin 1)).
Proof.
  intros Hnd Hne.
  destruct (column_bounds df col Hne)
    as (lo & hi & Hlo & Hhi & Hle & Hb & (rlo & Hrlo & Elo) & (rhi & Hrhi & Ehi)).
  assert (Hlt : lo < hi).
  { destruct (Rle_lt_or_eq_dec _ _ Hle) as [H|H]; [exact H|].
    exfalso; apply Hnd; unfold degenerate; now rewrite Hlo, Hhi, H. }
  assert (E : forall i r, nth_error df i = Some r ->
            nth_error (norm (calculate_metrics df) col) i
            = Some (Fin ((raw col r - lo) / (hi - lo)))).
  { intros i r Hr.
    destruct (calculate_metrics_rows df i r Hr) as (_ & Hn & _).
    rewrite Hn; unfold batch_normalize; rewrite Hlo, Hhi.
    cbn [fdiv fsub fadd fneg].
    destruct (Req_dec_T (hi + - lo) 0); [lra|reflexivity]. }
  repeat split.
  - rewrite Hlo; intros [= Er]; rewrite (E i r H), Er.
    f_equal; f_equal; field; lra.
  - rewrite Hhi; intros [= Er]; rewrite (E i r H), Er.
    f_equal; f_equal; field; lra.
  - destruct (In_nth_error _ _ Hrlo) as (i & Hi).
    exists i; rewrite (E i rlo Hi), Elo; f_equal; f_equal; field; lra.
  - destruct (In_nth_error _ _ Hrhi) as (j & Hj).
    exists j; rewrite (E j rhi Hj), Ehi; f_equal; f_equal; field; lra.
Qed.

Lemma normalize_column_ends_witness :
  (exists i,
     nth_error (norm (calculate_metrics [player_a; player_idle]) c_ppg) i
     = Some (Fin 0)) /\
  (exists j,
     nth_error (norm (calculate_metrics [player_a; player_idle]) c_ppg) j
     = Some (Fin 1)).
Proof.
  apply (normalize_column_ends [player_a; player_idle] c_ppg).
  - apply a_idle_regular.
  - discriminate.
Defined.

(* ================================================================== *)
(** * The dataset file and the forms *)

Lemma name_in_iff name df : name_in name df = true <-> In name (map player_name df).
Proof.
  unfold name_in; rewrite existsb_exists, in_map_iff.
  split; intros (r & H1 & H2); exists r.
  - apply String.eqb_eq in H2; auto.
  - split; [assumption|now apply String.eqb_eq].
Qed.

Lemma name_in_false_iff name df :
  name_in name df = false <-> ~ In name (map player_name df).
Proof.
  rewrite <- name_in_iff; destruct (name_in name df); split; intros H;
    solve [congruence | discriminate | exfalso; now apply H].
Qed.

Lemma without_player_absent df name :
  name_in name df = false -> without_player df name = df.
Proof.
  intros H; unfold without_player; induction df as [|r df IH]; [reflexivity|].
  cbn in H |- *; apply orb_false_iff in H as (Hr & Hdf).
  rewrite Hr; cbn; now rewrite IH.
Qed.

Lemma name_in_without_player df name : name_in name (without_player df name) = false.
Proof.
  apply name_in_false_iff; rewrite in_map_iff; intros (r & Hn & Hr).
  apply in_without_player in Hr as (_ & Hne); contradiction.
Qed.

Lemma without_player_names_sublist df name :
  NoDup (map player_name df) -> NoDup (map player_name (without_player df name)).
Proof.
  unfold without_player; induction df as [|r df IH]; cbn; [auto|].
  intros H; inversion H as [|? ? Hn Hd]; subst.
  destruct (negb _); cbn; [|now apply IH].
  constructor; [|now apply IH].
  rewrite in_map_iff; intros (r' & E & Hr'); apply Hn.
  apply filter_In in Hr' as (Hr' & _).
  rewrite <- E; now apply in_map.
Qed.

(** X9: a deletion removes every row of the name and no other row,
    keeps the names pairwise different when they were, and changes
    nothing when it is repeated. *)
Theorem delete_player_from_csv_effect (name : string) (csv : DataFrame) :
  let csv' := snd (delete_player_from_csv name csv) in
  fst (delete_player_from_csv name csv) = true /\
  name_in name csv' = false /\
  (forall r, In r csv' <-> In r csv /\ player_name r <> name) /\
  (unique_names csv -> unique_names csv') /\
  snd (delete_player_from_csv name csv') = csv' /\
  (name_in name csv = false -> csv' = csv).
Proof.
  cbv zeta; cbn [fst snd delete_player_from_csv].
  change (filter (fun r => negb (player_name r =? name)%string) csv)
    with (without_player csv name).
  split; [reflexivity|].
  split; [apply name_in_without_player|].
  split; [intros r; apply in_without_player|].
  split; [apply without_player_names_sublist|].
  split; [|apply without_player_absent].
  apply (without_player_absent (without_player csv name) name).
  apply name_in_without_player.
Qed.

(** The first row of a name splits the frame. *)
Lemma replace_first_split name p df :
  name_in name df = true ->
  exists pre old post,
    df = pre ++ old :: post /\ player_name old = name /\
    name_in name pre = false /\
    replace_first name p df = pre ++ p :: post.
Proof.
  induction df as [|r df IH]; [discriminate|].
  cbn; destruct (String.eqb_spec (player_name r) name) as [E|Hne]; cbn.
  - intros _; exists [], r, df; repeat split; assumption.
  - intros H; destruct (IH H) as (pre & old & post & -> & Eo & Hpre & Er).
    exists (r :: pre), old, post; repeat split; try assumption.
    + cbn; destruct (String.eqb_spec (player_name r) name); [contradiction|].
      exact Hpre.
    + cbn; now rewrite Er.
Qed.

(** X10: an update of a name that is not in the file returns False and
    writes nothing; an update of a name that is in the file returns True
    and replaces the first row of that name by the new record, every
    other row staying where it is. *)
Theorem update_player_in_csv_effect (original_name : string)
    (player_data : PlayerRecord) (csv : DataFrame) :
  if name_in original_name csv
  then exists pre old post,
      csv = pre ++ old :: post /\
      player_name old = original_name /\
      name_in original_name pre = false /\
      update_player_in_csv original_name player_data csv
      = (true, pre ++ player_data :: post)
  else update_player_in_csv original_name player_data csv = (false, csv).
Proof.
  unfold update_player_in_csv.
  destruct (name_in original_name csv) eqn:E; [|reflexivity].
  destruct (replace_first_split original_name player_data csv E)
    as (pre & old & post & H1 & H2 & H3 & H4).
  exists pre, old, post; rewrite H4; auto.
Qed.

(** *** The forms *)

Lemma player_name_with_name name form : player_name (with_name name form) = name.
Proof. reflexivity. Qed.

Lemma a_b_unique : unique_names [player_a; player_b].
Proof.
  unfold unique_names; cbn; repeat constructor; cbn; [|tauto].
  intros [H|[]]; discriminate.
Qed.

Lemma replace_first_length name p df :
  length (replace_first name p df) = length df.
Proof.
  induction df as [|r df IH]; [reflexivity|].
  cbn; destruct (String.eqb _ _); cbn; [reflexivity|now rewrite IH].
Qed.

(** X12: the edit form keeps the number of rows of the file and keeps
    the names pairwise different; a rejected submission leaves the file
    as it is. *)
Theorem edit_player_flow_effect (edit_player : string) (form : PlayerRecord)
    (csv : DataFrame) :
  unique_names csv ->
  let csv' := snd (edit_player_flow edit_player form csv) in
  length csv' = length csv /\
  unique_names csv' /\
  (forall message,
     fst (edit_player_flow edit_player form csv) = Rejected message ->
     csv' = csv).
Proof.
  intros Hu; cbv zeta.
  unfold edit_player_flow, edit_player_submitted.
  set (name := strip (player_name form)).
  destruct (String.eqb name EmptyString); [cbn; auto|].
  destruct (negb (String.eqb name edit_player) && name_in name csv) eqn:Hv;
    [cbn; auto|].
  cbn [fst snd]; unfold update_player_in_csv.
  destruct (name_in edit_player csv) eqn:Hin; cbn [snd];
    [|repeat split; auto; discriminate].
  split; [apply replace_first_length|].
  split; [|discriminate].
  destruct (replace_first_split edit_player (with_name name form) csv Hin)
    as (pre & old & post & -> & Eo & _ & ->).
  unfold unique_names in *; rewrite map_app in *; cbn [map] in *.
  rewrite player_name_with_name, Eo in *.
  apply andb_false_iff in Hv as [Hv|Hv].
  - apply negb_false_iff, String.eqb_eq in Hv; now rewrite Hv.
  - apply name_in_false_iff in Hv.
    rewrite map_app in Hv; cbn [map] in Hv; rewrite Eo in Hv.
    apply NoDup_remove in Hu as (Hu & _).
    eapply Permutation_NoDup; [apply Permutation_middle|].
    constructor; [|assumption].
    intros Hc; apply Hv.
    apply in_app_or in Hc; apply in_or_app.
    destruct Hc; [now left|right; now right].
Qed.

Lemma edit_player_flow_effect_witness :
  length (snd (edit_player_flow "Player B" add_form [player_a; player_b]))
  = 2%nat /\
  unique_names (snd (edit_player_flow "Player B" add_form [player_a; player_b])).
Proof.
  destruct (edit_player_flow_effect "Player B" add_form [player_a; player_b]
              a_b_unique) as (H1 & H2 & _).
  split; [exact H1|exact H2].
Defined.

(** *** Names of white space *)




(* ================================================================== *)
(** * The preview of a form against the rankings after it *)

(** The bounds of a feature do not depend on the order of the rows. *)
Lemma series_min_perm df df' col :
  Permutation df df' ->
  series_min (getitem df col) = series_min (getitem df' col).
Proof.
  intros HP.
  destruct df as [|r0 t0].
  { apply Permutation_nil in HP; now subst. }
  assert (Hne : r0 :: t0 <> []) by discriminate.
  assert (Hne' : df' <> []).
  { intros ->; symmetry in HP; apply Permutation_nil in HP; discriminate. }
  destruct (column_bounds _ col Hne) as (lo & hi & -> & _ & _ & Hb & (r & Hr & Er) & _).
  destruct (column_bounds _ col Hne') as (lo' & hi' & -> & _ & _ & Hb' & (r' & Hr' & Er') & _).
  f_equal.
  assert (lo' <= lo).
  { rewrite <- Er; apply Hb'; eapply Permutation_in; eassumption. }
  assert (lo <= lo').
  { rewrite <- Er'; apply Hb; eapply Permutation_in;
      [symmetry; eassumption|assumption]. }
  lra.
Qed.

Lemma series_max_perm df df' col :
  Permutation df df' ->
  series_max (getitem df col) = series_max (getitem df' col).
Proof.
  intros HP.
  destruct df as [|r0 t0].
  { apply Permutation_nil in HP; now subst. }
  assert (Hne : r0 :: t0 <> []) by discriminate.
  assert (Hne' : df' <> []).
  { intros ->; symmetry in HP; apply Permutation_nil in HP; discriminate. }
  destruct (column_bounds _ col Hne) as (lo & hi & _ & -> & _ & Hb & _ & (r & Hr & Er)).
  destruct (column_bounds _ col Hne') as (lo' & hi' & _ & -> & _ & Hb' & _ & (r' & Hr' & Er')).
  f_equal.
  assert (hi <= hi').
  { rewrite <- Er; apply Hb'; eapply Permutation_in; eassumption. }
  assert (hi' <= hi).
  { rewrite <- Er'; apply Hb; eapply Permutation_in;
      [symmetry; eassumption|assumption]. }
  lra.
Qed.

Lemma batch_normalize_perm df df' col r :
  Permutation df df' -> batch_normalize df col r = batch_normalize df' col r.
Proof.
  intros HP; unfold batch_normalize.
  now rewrite (series_min_perm df df' col HP), (series_max_perm df df' col HP).
Qed.

Lemma degenerate_perm df df' col :
  Permutation df df' -> degenerate df col -> degenerate df' col.
Proof.
  intros HP; unfold degenerate.
  now rewrite (series_min_perm df df' col HP), (series_max_perm df df' col HP).
Qed.

(** The scores of the evaluator are the scores that the batch scorer
    gives the candidate in any frame with the rows of the reference
    population and the candidate, when no feature is constant there. *)
Lemma evaluator_agrees_up_to_order (df csv' : DataFrame) (p : PlayerRecord)
    (i : nat) :
  Permutation (pd_concat df p) csv' ->
  nth_error csv' i = Some p ->
  (forall col, ~ degenerate csv' col) ->
  nth_error (Final_CEM (calculate_metrics csv')) i
    = Some (fst (calculate_single_player_metrics p df)) /\
  nth_error (MVPCEM (calculate_metrics csv')) i
    = Some (snd (calculate_single_player_metrics p df)).
Proof.
  intros HP Hi Hreg.
  destruct (calculate_metrics_rows csv' i p Hi) as (_ & _ & _ & HF & _ & HM).
  rewrite calculate_single_player_metrics_eq; cbn [fst snd].
  assert (E : forall col, guarded_normalize (pd_concat df p) col p
                          = batch_normalize csv' col p).
  { intros col; rewrite guarded_normalize_regular.
    - now apply batch_normalize_perm.
    - apply pd_concat_nonempty.
    - intros Hd; apply (Hreg col); eapply degenerate_perm; eassumption. }
  unfold spec_CEM, spec_PERLike; rewrite !E; split; assumption.
Qed.

(** X14: when the add form accepts a record, the two scores it shows
    are the scores that the batch scorer gives the new last row of the
    saved file, provided no feature is constant over the saved file. *)
Theorem add_preview_matches_rankings (form : PlayerRecord) (csv csv' : DataFrame)
    (player_data : PlayerRecord) (scores : float * float) :
  add_player_flow form csv = (Evaluated player_data scores, csv') ->
  (forall col, ~ degenerate csv' col) ->
  nth_error csv' (length csv) = Some player_data /\
  nth_error (Final_CEM (calculate_metrics csv')) (length csv)
    = Some (fst scores) /\
  nth_error (MVPCEM (calculate_metrics csv')) (length csv)
    = Some (snd scores).
Proof.
  unfold add_player_flow, add_player_submitted.
  destruct (String.eqb _ EmptyString); [discriminate|].
  destruct (name_in _ csv); [discriminate|].
  cbn [snd save_player_to_csv]; intros [= <- <- <-] Hreg.
  split; [apply nth_error_pd_concat|].
  apply evaluator_agrees_up_to_order;
    [reflexivity|apply nth_error_pd_concat|assumption].
Qed.

Lemma add_preview_matches_rankings_witness :
  nth_error (Final_CEM (calculate_metrics [player_a; player_idle])) 1
  = Some (fst (calculate_single_player_metrics player_idle [player_a])).
Proof.
  destruct (add_preview_matches_rankings add_form [player_a]
              [player_a; player_idle] player_idle
              (calculate_single_player_metrics player_idle [player_a])
              eq_refl a_idle_regular) as (_ & H & _).
  exact H.
Defined.

Lemma without_player_split pre old post :
  name_in (player_name old) pre = false ->
  name_in (player_name old) post = false ->
  without_player (pre ++ old :: post) (player_name old) = pre ++ post.
Proof.
  intros Hpre Hpost; unfold without_player; rewrite filter_app; cbn.
  rewrite String.eqb_refl; cbn.
  f_equal; [exact (without_player_absent pre _ Hpre)|
            exact (without_player_absent post _ Hpost)].
Qed.

(** X15: when the edit form accepts a change of a player of the file
    and the names of the file are pairwise different, the two scores it
    shows are the scores that the batch scorer gives the updated row of
    the saved file, provided no feature is constant over the saved
    file. *)
Theorem edit_preview_matches_rankings (edit_player : string)
    (form : PlayerRecord) (csv csv' : DataFrame)
    (updated_data : PlayerRecord) (scores : float * float) :
  unique_names csv ->
  name_in edit_player csv = true ->
  edit_player_flow edit_player form csv
    = (Evaluated updated_data scores, csv') ->
  (forall col, ~ degenerate csv' col) ->
  exists i,
    nth_error csv' i = Some updated_data /\
    nth_error (Final_CEM (calculate_metrics csv')) i = Some (fst scores) /\
    nth_error (MVPCEM (calculate_metrics csv')) i = Some (snd scores).
Proof.
  intros Hu Hin; unfold edit_player_flow, edit_player_submitted.
  destruct (String.eqb _ EmptyString); [discriminate|].
  destruct (negb _ && _); [discriminate|].
  unfold update_player_in_csv; rewrite Hin; cbn [snd].
  set (updated := with_name (strip (player_name form)) form).
  destruct (replace_first_split edit_player updated csv Hin)
    as (pre & old & post & -> & Eo & Hpre & ->).
  intros [= <- <- <-] Hreg.
  assert (Hpost : name_in edit_player post = false).
  { unfold unique_names in Hu; rewrite map_app in Hu; cbn [map] in Hu.
    apply NoDup_remove in Hu as (_ & Hn); rewrite Eo in Hn.
    apply name_in_false_iff; intros Hc; apply Hn, in_or_app; now right. }
  subst edit_player; rewrite (without_player_split pre old post Hpre Hpost).
  exists (length pre).
  assert (Hi : nth_error (pre ++ updated :: post) (length pre) = Some updated).
  { rewrite nth_error_app2 by lia; now rewrite Nat.sub_diag. }
  split; [exact Hi|].
  apply evaluator_agrees_up_to_order; try assumption.
  unfold pd_concat; rewrite <- app_assoc.
  apply Permutation_app_head; symmetry; apply Permutation_cons_append.
Qed.

Lemma edit_preview_matches_rankings_witness :
  exists i,
    nth_error [player_a; player_idle] i = Some player_idle /\
    nth_error (Final_CEM (calculate_metrics [player_a; player_idle])) i
    = Some (fst (calculate_single_player_metrics player_idle [player_a])).
Proof.
  destruct (edit_preview_matches_rankings "Player B" add_form
              [player_a; player_b] [player_a; player_idle] player_idle
              (calculate_single_player_metrics player_idle [player_a])
              a_b_unique eq_refl eq_refl a_idle_regular)
    as (i & H1 & H2 & _).
  exists i; split; assumption.
Defined.

(* ================================================================== *)
(** * Further properties of the classifier *)

Section ClassifierMore.

Context {A : Type}.
Variable metric : A -> float.

(** What a returned classification is, for finite metrics: the sorted
    rows with the tier by the two inner edges of four strictly
    ascending edges, the first and the last of which are metrics of
    the population. *)
Lemma classify_players_returns (df : list A)
    (out : list (A * option Category)) :
  finite_metric metric df ->
  classify_players metric df = Returns out ->
  exists e0 e1 e2 e3,
    quantile_edges (map metric df) 3 = [Fin e0; Fin e1; Fin e2; Fin e3] /\
    e0 < e1 /\ e1 < e2 /\ e2 < e3 /\
    out = map (fun a => (a, tier_of_float e1 e2 (metric a)))
              (sort_values metric df) /\
    (forall v, In (Fin v) (map metric df) -> e0 <= v <= e3) /\
    In (Fin e0) (map metric df) /\ In (Fin e3) (map metric df).
Proof.
  intros Hfin Hc.
  destruct df as [|a0 df0]; [discriminate Hc|].
  set (df := a0 :: df0) in *.
  assert (Hne : df <> []) by discriminate.
  destruct (classify_players_finite metric df Hfin Hne)
    as (e0 & e1 & e2 & e3 & E & H01 & H12 & H23 & Hcl).
  rewrite Hc in Hcl.
  destruct (has_duplicates _) eqn:Hd; [discriminate|].
  apply has_duplicates_four in Hd as (L01 & L12 & L23); try assumption.
  injection Hcl as ->.
  pose proof (finite_metric_map metric df Hfin) as Hx.
  assert (Hxne : map metric df <> []) by discriminate.
  destruct (quantile_edges_finite _ Hx Hxne)
    as (f0 & f1 & f2 & f3 & E' & _ & _ & _ & Hb).
  rewrite E in E'; injection E' as <- <- <- <-.
  destruct (sort_asc_reals _ Hx) as (rs & Es & Hs & HP).
  assert (Hrs : rs <> []).
  { intros ->; cbn in HP; apply Permutation_nil in HP; congruence. }
  pose proof E as Eedges.
  unfold quantile_edges in E; rewrite Es in E; cbn [seq Nat.add map] in E.
  rewrite (quantile_level_zero rs 3 Hrs), (quantile_level_one rs 3 Hrs) in E
    by lia.
  injection E as E0 _ _ E3.
  exists e0, e1, e2, e3.
  split; [exact Eedges|]. do 3 (split; [assumption|]).
  split; [reflexivity|]. split; [exact Hb|]. split.
  - eapply Permutation_in; [exact HP|].
    rewrite <- E0; apply in_map, nth_In.
    destruct rs; [congruence|cbn; lia].
  - eapply Permutation_in; [exact HP|].
    rewrite <- E3; apply in_map, nth_In.
    destruct rs; [congruence|cbn; lia].
Qed.

Lemma tier_by_cuts_monotone lower upper v w :
  lower <= upper -> v <= w ->
  (tier_rank (tier_by_cuts lower upper v)
   <= tier_rank (tier_by_cuts lower upper w))%nat.
Proof.
  intros Hlu Hvw; unfold tier_by_cuts.
  destruct (Rlt_dec upper v), (Rlt_dec upper w), (Rlt_dec lower v),
    (Rlt_dec lower w); cbn; try lia; lra.
Qed.

(** X16: in a returned classification a record never has a lower tier
    than a record with a lower or equal metric. *)
Theorem classify_players_monotone (df : list A)
    (out : list (A * option Category)) (a b : A) (ca cb : Category) :
  finite_metric metric df ->
  classify_players metric df = Returns out ->
  In (a, Some ca) out -> In (b, Some cb) out ->
  float_le (metric a) (metric b) ->
  (tier_rank ca <= tier_rank cb)%nat.
Proof.
  intros Hfin Hc Ha Hb Hle.
  destruct (classify_players_returns df out Hfin Hc)
    as (e0 & e1 & e2 & e3 & _ & _ & L12 & _ & -> & _).
  apply in_map_iff in Ha as (a' & [= -> Ea] & _).
  apply in_map_iff in Hb as (b' & [= -> Eb] & _).
  destruct (metric a) as [v| | |]; try discriminate.
  destruct (metric b) as [w| | |]; try discriminate.
  cbn in Ea, Eb; injection Ea as <-; injection Eb as <-.
  apply fltb_Fin_false in Hle.
  apply tier_by_cuts_monotone; lra.
Qed.

(** X17: the first row of a returned classification has the highest
    metric of the population and is MVP Caliber, so that at least one
    record is MVP Caliber; and some record is All-Star Caliber. *)
Theorem classify_players_top_and_bottom (df : list A)
    (out : list (A * option Category)) :
  finite_metric metric df ->
  classify_players metric df = Returns out ->
  exists top rest,
    out = (top, Some MVP_Caliber) :: rest /\
    top_row out = Some top /\
    (forall a c, In (a, c) out -> float_le (metric a) (metric top)) /\
    (1 <= mvp_count out)%nat /\
    exists low, In (low, Some All_Star_Caliber) out.
Proof.
  intros Hfin Hc.
  destruct (classify_players_returns df out Hfin Hc)
    as (e0 & e1 & e2 & e3 & _ & L01 & L12 & L23 & -> & Hb & H0 & H3).
  pose proof (sort_values_perm metric df) as HP.
  pose proof (sort_values_sorted metric df Hfin) as Hs.
  assert (Hfin' : forall a, In a (sort_values metric df) ->
                    exists v, metric a = Fin v /\ e0 <= v <= e3).
  { intros a Ha.
    assert (Hin : In a df) by (eapply Permutation_in; eassumption).
    unfold finite_metric in Hfin; rewrite Forall_forall in Hfin.
    destruct (is_finite_inv _ (Hfin a Hin)) as (v & Ev).
    exists v; split; [assumption|].
    apply Hb; rewrite <- Ev; now apply in_map. }
  destruct (sort_values metric df) as [|top rest] eqn:Es.
  { apply Permutation_nil in HP; subst df; destruct H0. }
  destruct (Hfin' top (or_introl eq_refl)) as (vt & Et & Bt).
  inversion Hs as [|? ? Hs' Htop]; subst.
  rewrite Forall_forall in Htop.
  assert (Hmax : forall a, In a (top :: rest) ->
                   float_le (metric a) (metric top)).
  { intros a [<-|Ha].
    - rewrite Et; unfold float_le; apply fltb_Fin_false; lra.
    - apply (Htop a Ha). }
  (* the greatest edge is the metric of a row, hence not above the top *)
  assert (Evt : vt = e3).
  { apply in_map_iff in H3 as (a3 & E3 & Ha3).
    assert (Ha3' : In a3 (top :: rest))
      by (eapply Permutation_in; [symmetry; exact HP|exact Ha3]).
    specialize (Hmax a3 Ha3'); rewrite E3, Et in Hmax.
    apply fltb_Fin_false in Hmax; lra. }
  assert (Ttop : tier_of_float e1 e2 (metric top) = Some MVP_Caliber).
  { rewrite Et; cbn; unfold tier_by_cuts.
    destruct (Rlt_dec e2 vt); [reflexivity|lra]. }
  cbn [map]; rewrite Ttop.
  eexists; eexists; split; [reflexivity|].
  split; [reflexivity|].
  split; [|split].
  - intros a c [[= <- _]|Hin].
    + apply Hmax; now left.
    + apply in_map_iff in Hin as (a' & [= -> _] & Ha').
      apply Hmax; now right.
  - unfold mvp_count; cbn; lia.
  - apply in_map_iff in H0 as (a0 & E0 & Ha0).
    assert (Ha0' : In a0 (top :: rest))
      by (eapply Permutation_in; [symmetry; exact HP|exact Ha0]).
    exists a0.
    assert (Ta : tier_of_float e1 e2 (metric a0) = Some All_Star_Caliber).
    { rewrite E0; cbn; unfold tier_by_cuts.
      destruct (Rlt_dec e2 e0); [lra|].
      destruct (Rlt_dec e1 e0); [lra|reflexivity]. }
    destruct Ha0' as [<-|Hr]; [congruence|].
    right; apply in_map_iff; exists a0; split; [now rewrite Ta|assumption].
Qed.

(** X18: the tiers do not depend on the order of the rows: two
    populations with the same rows in another order are both refused,
    or both classified with the same tier for every row. *)
Theorem classify_players_order_independent (df df' : list A) :
  finite_metric metric df -> Permutation df df' ->
  match classify_players metric df, classify_players metric df' with
  | Returns out, Returns out' => Permutation out out'
  | Raises e, Raises e' => e = e'
  | _, _ => False
  end.
Proof.
  intros Hfin HP.
  assert (Hfin' : finite_metric metric df')
    by (eapply Permutation_Forall; eassumption).
  destruct df as [|a0 t0].
  { apply Permutation_nil in HP; subst; reflexivity. }
  assert (Hne : a0 :: t0 <> []) by discriminate.
  assert (Hne' : df' <> []).
  { intros ->; symmetry in HP; apply Permutation_nil in HP; discriminate. }
  destruct (classify_players_finite metric _ Hfin Hne)
    as (e0 & e1 & e2 & e3 & E & _ & _ & _ & ->).
  destruct (classify_players_finite metric _ Hfin' Hne')
    as (f0 & f1 & f2 & f3 & E' & _ & _ & _ & ->).
  rewrite (quantile_edges_perm _ (map metric df') 3) in E.
  2: now apply finite_metric_map.
  2: now apply Permutation_map.
  rewrite E in E'; injection E' as <- <- <- <-.
  destruct (has_duplicates _); [reflexivity|].
  apply Permutation_map.
  rewrite (sort_values_perm metric (a0 :: t0)), HP.
  symmetry; apply sort_values_perm.
Qed.

End ClassifierMore.

Lemma scored_two_finite : finite_metric snd scored_two.
Proof. repeat constructor. Qed.

Lemma scored_two_classified :
  classify_players snd scored_two
  = Returns [(("P2", Fin 2), Some MVP_Caliber);
             (("P1", Fin 1), Some All_Star_Caliber)]%string.
Proof. classify_eval; reflexivity. Qed.

Lemma classify_players_monotone_witness :
  (tier_rank All_Star_Caliber <= tier_rank MVP_Caliber)%nat.
Proof.
  apply (classify_players_monotone snd scored_two _
           ("P1"%string, Fin 1) ("P2"%string, Fin 2)
           All_Star_Caliber MVP_Caliber
           scored_two_finite scored_two_classified).
  - right; left; reflexivity.
  - left; reflexivity.
  - unfold float_le; cbn; decide_reals; reflexivity.
Defined.

Lemma classify_players_top_and_bottom_witness :
  exists top rest,
    [(("P2", Fin 2), Some MVP_Caliber);
     (("P1", Fin 1), Some All_Star_Caliber)]%string
    = (top, Some MVP_Caliber) :: rest /\
    forall a c,
      In (a, c) [(("P2", Fin 2), Some MVP_Caliber);
                 (("P1", Fin 1), Some All_Star_Caliber)]%string ->
      float_le (snd a) (snd top).
Proof.
  destruct (classify_players_top_and_bottom snd scored_two _
              scored_two_finite scored_two_classified)
    as (top & rest & H1 & _ & H2 & _).
  exists top, rest; split; assumption.
Defined.

Lemma classify_players_order_independent_witness :
  match classify_players snd scored_two,
        classify_players snd (rev scored_two) with
  | Returns out, Returns out' => Permutation out out'
  | Raises e, Raises e' => e = e'
  | _, _ => False
  end.
Proof.
  apply classify_players_order_independent.
  - exact scored_two_finite.
  - apply Permutation_rev.
Defined.

(* ================================================================== *)
(** * The rankings of [main] *)

Lemma in_combine_seq {B : Type} (l : list B) (s i : nat) (b : B) :
  In (i, b) (combine (seq s (length l)) l) ->
  (s <= i)%nat /\ nth_error l (i - s) = Some b.
Proof.
  revert s; induction l as [|x l IH]; intros s; cbn; [tauto|].
  intros [[= <- <-]|H].
  - split; [lia|]. now rewrite Nat.sub_diag.
  - destruct (IH (S s) H) as (Hle & Hn); split; [lia|].
    replace (i - s)%nat with (S (i - S s)) by lia; exact Hn.
Qed.

Lemma map_snd_combine_seq {B : Type} (l : list B) (s : nat) :
  map snd (combine (seq s (length l)) l) = l.
Proof.
  revert s; induction l as [|x l IH]; intros s; cbn; [reflexivity|].
  now rewrite IH.
Qed.

Lemma iterrows_records sf : map record (iterrows sf) = rows sf.
Proof.
  unfold iterrows; rewrite map_map; cbn [record].
  apply map_snd_combine_seq.
Qed.

(** A row of the scored dataset carries the scores that the batch scorer
    computed for its record over the whole dataset. *)
Lemma in_iterrows df row :
  In row (iterrows (calculate_metrics df)) ->
  exists i,
    nth_error df i = Some (record row) /\
    nth_error (Final_CEM (calculate_metrics df)) i = Some (row_Final_CEM row) /\
    nth_error (MVPCEM (calculate_metrics df)) i = Some (row_MVPCEM row).
Proof.
  unfold iterrows; intros H.
  apply in_map_iff in H as ([i r] & <- & Hin); cbn [fst snd] in *.
  apply in_combine_seq in Hin as (_ & Hr).
  rewrite Nat.sub_0_r in Hr; cbn [rows calculate_metrics] in Hr.
  exists i; cbn [record row_Final_CEM row_MVPCEM].
  destruct (calculate_metrics_rows df i r Hr) as (_ & _ & _ & HF & _ & HM).
  split; [exact Hr|].
  split.
  - rewrite (nth_error_nth _ _ NaN HF); exact HF.
  - rewrite (nth_error_nth _ _ NaN HM); exact HM.
Qed.

Lemma in_filter_conference conf l row :
  In row (filter_conference conf l) -> In row l.
Proof.
  destruct conf as [c|]; cbn; [|auto].
  intros H; now apply filter_In in H.
Qed.

Section ClassifierGeneral.

Context {A : Type}.
Variable metric : A -> float.

(** A returned classification holds the sorted rows, each once. *)
Lemma classify_players_rows (df : list A) (out : list (A * option Category)) :
  classify_players metric df = Returns out ->
  map fst out = sort_values metric df.
Proof.
  unfold classify_players.
  destruct (qcut _ 3 _) as [cats|e] eqn:Eq; [|discriminate].
  intros [= <-]; unfold qcut in Eq.
  destruct (has_duplicates _ && _); [discriminate|].
  destruct (negb _); [discriminate|].
  injection Eq as <-.
  rewrite map_map, combine_map_self, map_map; cbn [fst]; apply map_id.
Qed.

Lemma dropna_all_nan (x : Series) :
  Forall (fun v => v = NaN) x -> dropna x = [].
Proof.
  unfold dropna; induction 1 as [|v x -> _ IH]; [reflexivity|exact IH].
Qed.

(** A column of NaN has no bin edges. *)
Lemma classify_players_all_nan (df : list A) :
  (forall a, In a df -> metric a = NaN) ->
  classify_players metric df = Raises (ValueError "Bin edges must be unique").
Proof.
  intros H; unfold classify_players, qcut, quantile_edges.
  rewrite dropna_all_nan; [reflexivity|].
  rewrite Forall_map, Forall_forall; intros a Ha; apply H.
  eapply Permutation_in; [apply sort_values_perm|exact Ha].
Qed.

(** Two rows of different metric. *)
Lemma classify_players_pair (a b : A) (x y : R) :
  metric a = Fin x -> metric b = Fin y -> x < y ->
  classify_players metric [a; b]
  = Returns [(b, Some MVP_Caliber); (a, Some All_Star_Caliber)].
Proof.
  intros Ex Ey Hlt.
  unfold classify_players, sort_values; cbn [fold_right insert_desc].
  unfold goes_before; rewrite Ex, Ey; cbn [isna fltb negb].
  destruct (Rlt_dec x y); [|lra].
  cbn [negb map]; rewrite ?Ex, ?Ey.
  classify_eval; reflexivity.
Qed.

End ClassifierGeneral.

(** X19: when one of the eight features of the CEM is constant over the
    dataset, as it is for a dataset of one player or none, the rankings
    raise the [ValueError] of [pd.qcut] for every conference filter and
    for both metrics. *)
Theorem rank_players_constant_feature (df : DataFrame)
    (selected_conference : option string) (selected_metric : metric_key)
    (col : column) :
  In col features_cem -> degenerate df col ->
  rank_players df selected_conference selected_metric
  = Raises (ValueError "Bin edges must be unique").
Proof.
  intros Hcol Hd; unfold rank_players.
  apply classify_players_all_nan; intros row Hrow.
  apply in_filter_conference, in_iterrows in Hrow as (i & Hr & HF & HM).
  destruct (batch_scores_NaN_when_degenerate df i (record row) col Hr Hcol Hd)
    as (HF' & HM').
  rewrite HF in HF'; rewrite HM in HM'.
  destruct selected_metric; cbn; congruence.
Qed.

Lemma rank_players_constant_feature_witness :
  rank_players [player_a; player_b] (Some "EAST"%string) key_MVPCEM
  = Raises (ValueError "Bin edges must be unique").
Proof.
  apply (rank_players_constant_feature _ _ _ c_bpg);
    [cbn; tauto|exact bpg_constant_a_b].
Defined.

(** The records of the selected conference. *)
Lemma filter_conference_records conf l :
  map record (filter_conference conf l)
  = match conf with
    | None => map record l
    | Some c => filter (fun r => String.eqb (conference r) c) (map record l)
    end.
Proof.
  destruct conf as [c|]; cbn; [|reflexivity].
  induction l as [|row l IH]; cbn; [reflexivity|].
  destruct (String.eqb _ c); cbn; now rewrite IH.
Qed.

(** X20: when the rankings are returned, they hold every player of the
    selected conference once and no other player, and each row carries
    the two scores that the batch scorer computed for the player over
    the whole dataset, not over the conference. *)
Theorem rank_players_rows (df : DataFrame)
    (selected_conference : option string) (selected_metric : metric_key)
    (out : list (ScoredRow * option Category)) :
  rank_players df selected_conference selected_metric = Returns out ->
  Permutation (map (fun x => record (fst x)) out)
    (match selected_conference with
     | None => df
     | Some c => filter (fun r => String.eqb (conference r) c) df
     end) /\
  forall row c, In (row, c) out ->
    exists i,
      nth_error df i = Some (record row) /\
      nth_error (Final_CEM (calculate_metrics df)) i
        = Some (row_Final_CEM row) /\
      nth_error (MVPCEM (calculate_metrics df)) i = Some (row_MVPCEM row).
Proof.
  unfold rank_players; intros H.
  apply classify_players_rows in H.
  pose proof (sort_values_perm (metric_of selected_metric)
                (filter_conference selected_conference
                   (iterrows (calculate_metrics df)))) as HP.
  rewrite <- H in HP.
  split.
  - rewrite <- (map_map fst record).
    rewrite (Permutation_map record HP), filter_conference_records.
    now rewrite iterrows_records.
  - intros row c Hin.
    apply in_iterrows, (in_filter_conference selected_conference).
    eapply Permutation_in; [exact HP|].
    apply in_map_iff; exists (row, c); auto.
Qed.

Lemma normalize_a_d col :
  batch_normalize [player_a; player_d] col player_a = Fin 0 /\
  batch_normalize [player_a; player_d] col player_d = Fin 1.
Proof.
  destruct col;
    unfold batch_normalize, series_max, series_min, fmax2, fmin2;
    fl_eval; split; f_equal; field; lra.
Qed.

Lemma final_cem_a_d :
  exists x y,
    nth_error (Final_CEM (calculate_metrics [player_a; player_d])) 0
      = Some (Fin x) /\
    nth_error (Final_CEM (calculate_metrics [player_a; player_d])) 1
      = Some (Fin y) /\
    x < y.
Proof.
  destruct (calculate_metrics_rows [player_a; player_d] 0 player_a eq_refl)
    as (_ & _ & _ & HFa & _).
  destruct (calculate_metrics_rows [player_a; player_d] 1 player_d eq_refl)
    as (_ & _ & _ & HFd & _).
  unfold spec_CEM in HFa, HFd.
  rewrite !(proj1 (normalize_a_d _)) in HFa.
  rewrite !(proj2 (normalize_a_d _)) in HFd.
  rewrite np_log_games in HFa, HFd by (cbn; lia).
  cbn [fmul fadd fsub fneg lit] in HFa, HFd.
  eexists; eexists; split; [exact HFa|split; [exact HFd|]].
  assert (0 < ln 82) by (rewrite <- ln_1; apply ln_increasing; lra).
  cbn [games_played player_a player_d]; lra.
Qed.

Lemma rank_players_rows_witness :
  exists out,
    rank_players [player_a; player_d] None key_Final_CEM = Returns out /\
    Permutation (map (fun x => record (fst x)) out) [player_a; player_d].
Proof.
  destruct final_cem_a_d as (x & y & Hx & Hy & Hlt).
  assert (Hr : exists out,
             rank_players [player_a; player_d] None key_Final_CEM
             = Returns out).
  { unfold rank_players, filter_conference, iterrows.
    cbn [rows calculate_metrics length seq combine map fst snd].
    eexists; apply (classify_players_pair _ _ _ x y); [| |exact Hlt].
    - cbn [metric_of row_Final_CEM]; apply (nth_error_nth _ _ NaN Hx).
    - cbn [metric_of row_Final_CEM]; apply (nth_error_nth _ _ NaN Hy). }
  destruct Hr as (out & Hout); exists out; split; [exact Hout|].
  exact (proj1 (rank_players_rows _ None key_Final_CEM out Hout)).
Defined.

(* ================================================================== *)
(** * The bar chart *)

Section ChartFacts.

Context {A : Type}.
Variable metric : A -> float.

Lemma insert_ascending_perm a l :
  Permutation (insert_ascending metric a l) (a :: l).
Proof.
  induction l as [|b l IH]; cbn; [reflexivity|].
  destruct (goes_before_ascending metric a b); [reflexivity|].
  rewrite IH; apply perm_swap.
Qed.

Lemma sort_values_ascending_perm df :
  Permutation (sort_values_ascending metric df) df.
Proof.
  induction df as [|a df IH]; cbn; [reflexivity|].
  rewrite insert_ascending_perm; now constructor.
Qed.

Lemma filter_perm {B : Type} (f : B -> bool) (l l' : list B) :
  Permutation l l' -> Permutation (filter f l) (filter f l').
Proof.
  induction 1 as [|x l l' _ IH|x y l|l l' l'' _ IH1 _ IH2]; cbn.
  - reflexivity.
  - destruct (f x); [now constructor|assumption].
  - destruct (f x), (f y); try reflexivity. apply perm_swap.
  - now rewrite IH1.
Qed.

(** The three traces of a list of rows hold its labelled rows. *)
Lemma traces_partition (l : list (A * option Category)) :
  Permutation
    (filter (fun row => has_category All_Star_Caliber (snd row)) l
     ++ filter (fun row => has_category All_NBA_Caliber (snd row)) l
     ++ filter (fun row => has_category MVP_Caliber (snd row)) l)
    (filter (fun row => match snd row with Some _ => true | None => false end) l).
Proof.
  induction l as [|[a [c|]] l IH]; cbn; [reflexivity| |exact IH].
  destruct c; cbn.
  - rewrite <- IH, !app_assoc; symmetry; apply Permutation_middle.
  - rewrite <- IH; symmetry; apply Permutation_middle.
  - now constructor.
Qed.

(** X21: the bars of the chart are the labelled rows of the frame,
    each drawn once: a row is in the trace of its category and in no
    other, and a row without category is in no trace. *)
Theorem create_rankings_chart_partition (df : list (A * option Category)) :
  map fst (create_rankings_chart metric df)
  = [All_Star_Caliber; All_NBA_Caliber; MVP_Caliber] /\
  Permutation
    (concat (map snd (create_rankings_chart metric df)))
    (map fst
       (filter (fun row => match snd row with
                           | Some _ => true
                           | None => false
                           end) df)) /\
  forall category bars a,
    In (category, bars) (create_rankings_chart metric df) ->
    In a bars -> In (a, Some category) df.
Proof.
  unfold create_rankings_chart, chart_categories; cbn [map fst snd concat].
  split; [reflexivity|]. split.
  - rewrite app_nil_r, <- !map_app.
    apply Permutation_map.
    rewrite traces_partition.
    apply filter_perm, sort_values_ascending_perm.
  - intros category bars a [H|[H|[H|[]]]] Ha;
      injection H as <- <-;
      apply in_map_iff in Ha as ([a' c] & Ea & Hin); cbn in Ea; subst a';
      apply filter_In in Hin as (Hin & Hc);
      (eapply Permutation_in in Hin; [|apply sort_values_ascending_perm]);
      destruct c as [[]|]; cbn in Hc; try discriminate; exact Hin.
Qed.

End ChartFacts.

(* ================================================================== *)
(** * The order of the rows *)

(** X22: the scores that the batch scorer gives a record do not depend
    on the order of the rows of the dataset. *)
Theorem calculate_metrics_order_independent (df df' : DataFrame) (i j : nat)
    (r : PlayerRecord) :
  Permutation df df' ->
  nth_error df i = Some r -> nth_error df' j = Some r ->
  nth_error (Final_CEM (calculate_metrics df)) i
    = nth_error (Final_CEM (calculate_metrics df')) j /\
  nth_error (MVPCEM (calculate_metrics df)) i
    = nth_error (MVPCEM (calculate_metrics df')) j.
Proof.
  intros HP Hi Hj.
  destruct (calculate_metrics_rows df i r Hi) as (_ & _ & _ & HF & _ & HM).
  destruct (calculate_metrics_rows df' j r Hj) as (_ & _ & _ & HF' & _ & HM').
  rewrite HF, HM, HF', HM'; unfold spec_CEM, spec_PERLike.
  now rewrite !(fun col => batch_normalize_perm df df' col r HP).
Qed.

Lemma calculate_metrics_order_independent_witness :
  nth_error (Final_CEM (calculate_metrics [player_a; player_d])) 0
  = nth_error (Final_CEM (calculate_metrics [player_d; player_a])) 1.
Proof.
  apply (calculate_metrics_order_independent [player_a; player_d]
           [player_d; player_a] 0 1 player_a);
    [apply perm_swap|reflexivity|reflexivity].
Defined.

(** X23: the scores of the evaluator do not depend on the order of the
    rows of the reference population. *)
Theorem evaluator_order_independent (p : PlayerRecord) (df df' : DataFrame) :
  Permutation df df' ->
  calculate_single_player_metrics p df = calculate_single_player_metrics p df'.
Proof.
  intros HP; rewrite !calculate_single_player_metrics_eq.
  assert (HP' : Permutation (pd_concat df p) (pd_concat df' p))
    by (unfold pd_concat; now apply Permutation_app_tail).
  assert (E : forall col, guarded_normalize (pd_concat df p) col p
                          = guarded_normalize (pd_concat df' p) col p).
  { intros col; unfold guarded_normalize.
    now rewrite (series_min_perm _ _ col HP'), (series_max_perm _ _ col HP'),
      (batch_normalize_perm _ _ col p HP'). }
  unfold spec_CEM, spec_PERLike; now rewrite !E.
Qed.

Lemma evaluator_order_independent_witness :
  calculate_single_player_metrics player_idle [player_a; player_d]
  = calculate_single_player_metrics player_idle [player_d; player_a].
Proof. apply evaluator_order_independent, perm_swap. Defined.
